(** * Memoryscape backend: the real-time presence and room layer

    A shallow embedding of [src/socket/socketHandler.js] (the socket event
    handlers, the periodic sweep and the read queries), of the pin and
    reaction routes of [src/routes/memories.js] and of the middleware of
    [src/middleware/auth.js], together with the properties of the presence /
    room / broadcast layer and of the permission checks that hold of them.

    The two module-level [Map]s of the handler ([activeUsers],
    [capsuleRooms]) become finite maps; the [Set]s stored in them become
    finite sets.  JavaScript enumerates a [Map] or a [Set] in insertion
    order, the finite maps and sets used here in a canonical order: the model
    keeps who receives which event and how often, and the order of the events
    one handler sends to one connection whenever they come from different
    statements; it does not keep the order in which one [forEach] visits
    its entries. *)

From stdpp Require Import gmap strings list fin_maps.
From Stdlib Require Import ZArith.

Local Open Scope string_scope.
Local Open Scope list_scope.

(** ** Documents of the persistent store *)

(** A user document as the handlers use it: [_id] (already a string, the code
    calls [toString()] on it wherever it is compared) and the profile. *)
Record User := mkUser {
  user_id : string;
  user_name : string;
  user_avatarUrl : string;
}.

(** [src/models/Capsule.js]: an entry of [contributors]. *)
Inductive Role := admin | contributor | viewer.

Record Contributor := mkContributor {
  c_user : string;
  c_role : Role;
}.

(** [src/models/Capsule.js]: the fields the handlers read. *)
Record Capsule := mkCapsule {
  capsule_id : string;
  owner : string;
  contributors : list Contributor;
}.

(** The memory document, as the pin route reads and writes it. *)
Record MemoryItem := mkMemory {
  memory_id : string;
  capsule : string;
  isPinned : bool;
}.

(** What an awaited store call gives back: it throws (the promise rejects)
    or it returns a value; [findById] returns [null] ([None]) for an id
    that resolves to no document. *)
Inductive Outcome (A : Type) :=
| Threw
| Returned (a : A).
Arguments Threw {A}.
Arguments Returned {A} a.

#[global] Instance User_eq_dec : EqDecision User.
Proof. solve_decision. Defined.
#[global] Instance Role_eq_dec : EqDecision Role.
Proof. solve_decision. Defined.

(** ** Events and outputs *)

(** The value stored in [activeUsers] for a user id. *)
Record ActiveUser := mkActive {
  socketId : string;
  au_user : User;
  joinedAt : Z;
}.

#[global] Instance ActiveUser_eq_dec : EqDecision ActiveUser.
Proof. solve_decision. Defined.

(** The outbound events, named as on the wire, with their payload fields in
    the order the source writes them. *)
Inductive Event :=
| user_online (userId : string) (user : User)
| user_offline (userId : string) (user : User)
| user_joined_capsule (userId : string) (user : User) (capsuleId : string)
| user_left_capsule (userId : string) (user : User) (capsuleId : string)
| capsule_joined (capsuleId : string) (activeUsers : list ActiveUser)
| user_typing (userId : string) (user : User) (capsuleId memoryId : string)
    (isTyping : bool)
| live_reaction (userId : string) (user : User)
    (capsuleId memoryId emoji position : string) (timestamp : Z)
| user_viewing_memory (userId : string) (user : User)
    (capsuleId memoryId : string)
| error (message : string)
| memory_pinned (memoryId : string) (isPinned : bool) (pinnedBy : User).

#[global] Instance Event_eq_dec : EqDecision Event.
Proof. solve_decision. Defined.

(** The lines the handlers write with [console.log] / [console.error]. *)
Inductive LogLine :=
| log_connected (name sid : string)
| log_joined_rooms (name : string) (count : nat)
| log_joined_capsule (name capsuleId : string)
| log_left_capsule (name capsuleId : string)
| log_disconnected (name reason : string)
| log_error (label : string).

(** What a handler does to the outside: an event put on the wire for one
    connection, a refused handshake, a line on the console. *)
Inductive Output :=
| Emit (to : string) (ev : Event)
| ConnectError (to : string) (message : string)
| ConsoleLog (line : LogLine).

(** The events one connection receives, in order. *)
Definition received (sid : string) (outs : list Output) : list Event :=
  omap (λ o, match o with
             | Emit to ev => if decide (to = sid) then Some ev else None
             | _ => None
             end) outs.

(** ** The socket library

    socket.io is not part of the repository.  The handlers use five of its
    operations, modelled here after its documentation: a namespace keeps the
    set of connected sockets and, for each room, the set of socket ids that
    joined it (its in-memory adapter deletes a room that becomes empty).
    - [socket.join(room)], [socket.leave(room)];
    - [socket.emit(ev)]: to this socket only;
    - [socket.to(room).emit(ev)]: to every socket in the room except this
      socket, whether or not this socket is in the room;
    - [socket.broadcast.emit(ev)]: to every connected socket except this one;
    - [io.to(room).emit(ev)]: to every socket in the room.
    A socket is in the namespace when its [connection] handler runs, and has
    left the namespace and all its rooms when its [disconnect] handler runs. *)
Module SocketIO.

Record t := mk {
  sockets : gset string;
  rooms : gmap string (gset string);
}.

Definition empty : t := {| sockets := ∅; rooms := ∅ |}.

Definition members (room : string) (s : t) : gset string :=
  default ∅ (rooms s !! room).

(** Removing a socket id from a room's set; the room goes when it is empty. *)
Definition without (sid : string) (m : gset string) : option (gset string) :=
  let m' := m ∖ {[sid]} in
  if decide (m' = ∅) then None else Some m'.

Definition connect (sid : string) (s : t) : t :=
  {| sockets := {[sid]} ∪ sockets s; rooms := rooms s |}.

Definition disconnect (sid : string) (s : t) : t :=
  {| sockets := sockets s ∖ {[sid]}; rooms := omap (without sid) (rooms s) |}.

Definition join (sid room : string) (s : t) : t :=
  {| sockets := sockets s;
     rooms := <[room := {[sid]} ∪ members room s]> (rooms s) |}.

Definition leave (sid room : string) (s : t) : t :=
  {| sockets := sockets s;
     rooms := match rooms s !! room with
              | None => rooms s
              | Some m => match without sid m with
                          | None => delete room (rooms s)
                          | Some m' => <[room := m']> (rooms s)
                          end
              end |}.

Definition send (ev : Event) (targets : gset string) : list Output :=
  (λ to, Emit to ev) <$> elements targets.

(** [socket.emit] *)
Definition emit (sid : string) (ev : Event) : list Output := [Emit sid ev].

(** [socket.to(room).emit] *)
Definition to_emit (sid room : string) (ev : Event) (s : t) : list Output :=
  send ev (members room s ∖ {[sid]}).

(** [socket.broadcast.emit] *)
Definition broadcast_emit (sid : string) (ev : Event) (s : t) : list Output :=
  send ev (sockets s ∖ {[sid]}).

(** [io.to(room).emit] *)
Definition io_to_emit (room : string) (ev : Event) (s : t) : list Output :=
  send ev (members room s).

End SocketIO.

(** ** The handler's state *)

(** A socket once the authentication middleware has accepted it: the
    library's [id] and the two fields the middleware sets. *)
Record Socket := mkSocket {
  id : string;
  userId : string;
  user : User;
}.

(** [activeUsers] and [capsuleRooms] (module level, lines 6-7), and the
    socket server the handlers talk to. *)
Record State := mkState {
  activeUsers : gmap string ActiveUser;
  capsuleRooms : gmap string (gset string);
  io : SocketIO.t;
}.

Definition init : State :=
  {| activeUsers := ∅; capsuleRooms := ∅; io := SocketIO.empty |}.

(** [`capsule_${capsuleId}`] *)
Definition roomName (capsuleId : string) : string :=
  String.append "capsule_" capsuleId.

(** [String.prototype.replace] with a string pattern: the first occurrence
    of [pat] is replaced. *)
Fixpoint replace (pat rep s : string) : string :=
  if String.prefix pat s then
    String.append rep
      (String.substring (String.length pat)
         (String.length s - String.length pat) s)
  else match s with
       | EmptyString => EmptyString
       | String c s' => String c (replace pat rep s')
       end.

(** ** The authentication middleware (lines 11-32) *)

Section Middleware.
(** [jwt.verify(token, process.env.JWT_SECRET)]: the [userId] of the
    decoded payload, or [None] when it throws. *)
Variable jwt_verify : string → option string.
(** [User.findById(id).select("-password")] *)
Variable User_findById : string → Outcome (option User).

(** [inl socket]: [next()] was called and the socket carries [userId] and
    [user]; [inr msg]: [next(new Error(msg))].  A missing token is
    [None]; [!token] also holds of the empty string. *)
Definition authenticate (sid : string) (token : option string)
  : Socket + string :=
  match token with
  | None => inr "Authentication error"
  | Some "" => inr "Authentication error"
  | Some tok =>
      match jwt_verify tok with
      | None => inr "Authentication error"
      | Some decoded_userId =>
          match User_findById decoded_userId with
          | Threw => inr "Authentication error"
          | Returned None => inr "User not found"
          | Returned (Some u) =>
              inl {| id := sid; userId := user_id u; user := u |}
          end
      end
  end.
End Middleware.

(** ** The event handlers (lines 34-238) *)

(** [io.on("connection", ...)], lines 35-48: the body that runs once per
    accepted socket, before any of its events. *)
Definition on_connection (now : Z) (socket : Socket) (st : State)
  : State * list Output :=
  let st' :=
    {| activeUsers :=
         <[userId socket := {| socketId := id socket; au_user := user socket;
                               joinedAt := now |}]> (activeUsers st);
       capsuleRooms := capsuleRooms st;
       io := io st |} in
  (st',
   ConsoleLog (log_connected (user_name (user socket)) (id socket))
   :: SocketIO.broadcast_emit (id socket)
        (user_online (userId socket) (user socket)) (io st')).

(** Lines 58-72 and 100-107: join the library room and track the user id. *)
Definition track (socket : Socket) (room : string) (st : State) : State :=
  {| activeUsers := activeUsers st;
     capsuleRooms :=
       <[room := {[userId socket]} ∪ default ∅ (capsuleRooms st !! room)]>
         (capsuleRooms st);
     io := SocketIO.join (id socket) room (io st) |}.

(** The body of the [forEach] of [join_capsules], lines 57-73. *)
Definition join_each (socket : Socket) (acc : State * list Output)
  (cap : Capsule) : State * list Output :=
  let room := roomName (capsule_id cap) in
  let st' := track socket room acc.1 in
  (st',
   acc.2 ++ SocketIO.to_emit (id socket) room
     (user_joined_capsule (userId socket) (user socket) (capsule_id cap))
     (io st')).

(** [socket.on("join_capsules", ...)], lines 51-80.  [found] is what
    [Capsule.find({$or: ...}).select("_id")] gave. *)
Definition join_capsules (socket : Socket) (found : Outcome (list Capsule))
  (st : State) : State * list Output :=
  match found with
  | Threw =>
      (st, ConsoleLog (log_error "Join capsules error:")
           :: SocketIO.emit (id socket) (error "Failed to join capsules"))
  | Returned userCapsules =>
      let r := foldl (join_each socket) (st, []) userCapsules in
      (r.1, r.2 ++ [ConsoleLog (log_joined_rooms (user_name (user socket))
                                  (length userCapsules))])
  end.

(** The query of line 53-55 on the capsule collection:
    [{ $or: [{ owner: uid }, { "contributors.user": uid }] }] selects the
    capsules whose owner is [uid] or one of whose contributors is. *)
Definition Capsule_find_member (capsules : list Capsule) (uid : string)
  : list Capsule :=
  filter (λ cap, owner cap = uid ∨ uid ∈ c_user <$> contributors cap) capsules.

(** Lines 92-94. *)
Definition hasAccess (cap : Capsule) (uid : string) : bool :=
  bool_decide (owner cap = uid)
  || existsb (λ c, bool_decide (c_user c = uid)) (contributors cap).

(** Lines 110-112 and 265-267: the entries of [activeUsers] for the user ids
    of a room, those without an entry dropped. *)
Definition activeOf (st : State) (users : gset string) : list ActiveUser :=
  omap (λ uid, activeUsers st !! uid) (elements users).

(** [socket.on("join_capsule", ...)], lines 83-131.  [found] is what
    [Capsule.findById(capsuleId)] gave. *)
Definition join_capsule (socket : Socket) (capsuleId : string)
  (found : Outcome (option Capsule)) (st : State) : State * list Output :=
  match found with
  | Threw =>
      (st, ConsoleLog (log_error "Join capsule error:")
           :: SocketIO.emit (id socket) (error "Failed to join capsule"))
  | Returned None =>
      (st, SocketIO.emit (id socket) (error "Capsule not found"))
  | Returned (Some cap) =>
      if hasAccess cap (userId socket) then
        let room := roomName capsuleId in
        let st' := track socket room st in
        let activeUsersInCapsule :=
          activeOf st' (default ∅ (capsuleRooms st' !! room)) in
        (st',
         SocketIO.emit (id socket) (capsule_joined capsuleId activeUsersInCapsule)
         ++ SocketIO.to_emit (id socket) room
              (user_joined_capsule (userId socket) (user socket) capsuleId)
              (io st')
         ++ [ConsoleLog (log_joined_capsule (user_name (user socket)) capsuleId)])
      else
        (st, SocketIO.emit (id socket) (error "Access denied"))
  end.

(** Lines 139-144. *)
Definition untrack (uid room : string) (rooms : gmap string (gset string))
  : gmap string (gset string) :=
  match rooms !! room with
  | None => rooms
  | Some users =>
      let users' := users ∖ {[uid]} in
      if decide (size users' = 0) then delete room rooms
      else <[room := users']> rooms
  end.

(** [socket.on("leave_capsule", ...)], lines 134-154. *)
Definition leave_capsule (socket : Socket) (capsuleId : string) (st : State)
  : State * list Output :=
  let room := roomName capsuleId in
  let st' :=
    {| activeUsers := activeUsers st;
       capsuleRooms := untrack (userId socket) room (capsuleRooms st);
       io := SocketIO.leave (id socket) room (io st) |} in
  (st',
   SocketIO.to_emit (id socket) room
     (user_left_capsule (userId socket) (user socket) capsuleId) (io st')
   ++ [ConsoleLog (log_left_capsule (user_name (user socket)) capsuleId)]).

(** [typing_start] and [typing_stop], lines 157-177. *)
Definition typing (isTyping : bool) (socket : Socket)
  (capsuleId memoryId : string) (st : State) : State * list Output :=
  (st, SocketIO.to_emit (id socket) (roomName capsuleId)
         (user_typing (userId socket) (user socket) capsuleId memoryId isTyping)
         (io st)).

Definition typing_start := typing true.
Definition typing_stop := typing false.

(** [live_reaction], lines 180-191. *)
Definition on_live_reaction (now : Z) (socket : Socket)
  (capsuleId memoryId emoji position : string) (st : State)
  : State * list Output :=
  (st, SocketIO.to_emit (id socket) (roomName capsuleId)
         (live_reaction (userId socket) (user socket) capsuleId memoryId emoji
            position now) (io st)).

(** [viewing_memory], lines 194-202. *)
Definition viewing_memory (socket : Socket) (capsuleId memoryId : string)
  (st : State) : State * list Output :=
  (st, SocketIO.to_emit (id socket) (roomName capsuleId)
         (user_viewing_memory (userId socket) (user socket) capsuleId memoryId)
         (io st)).

(** The body of the [forEach] of the disconnect handler, lines 212-225, on
    one entry: what becomes of the entry, and what is sent. *)
Definition drop_user (uid : string) (users : gset string)
  : option (gset string) :=
  if decide (uid ∈ users) then
    let users' := users ∖ {[uid]} in
    if decide (size users' = 0) then None else Some users'
  else Some users.

Definition notify_left (socket : Socket) (s : SocketIO.t)
  (entry : string * gset string) : list Output :=
  if decide (userId socket ∈ entry.2) then
    SocketIO.to_emit (id socket) entry.1
      (user_left_capsule (userId socket) (user socket)
         (replace "capsule_" "" entry.1)) s
  else [].

(** [socket.on("disconnect", ...)], lines 205-232. *)
Definition on_disconnect (socket : Socket) (reason : string) (st : State)
  : State * list Output :=
  let st' :=
    {| activeUsers := delete (userId socket) (activeUsers st);
       capsuleRooms := omap (drop_user (userId socket)) (capsuleRooms st);
       io := io st |} in
  (st',
   ConsoleLog (log_disconnected (user_name (user socket)) reason)
   :: concat (notify_left socket (io st) <$> map_to_list (capsuleRooms st))
   ++ SocketIO.broadcast_emit (id socket)
        (user_offline (userId socket) (user socket)) (io st)).

(** ** The periodic sweep (lines 241-253) *)

(** [60 * 60 * 1000] *)
Definition staleness : Z := 60 * 60 * 1000.
(** [5 * 60 * 1000] *)
Definition sweep_period : Z := 5 * 60 * 1000.

Definition sweep (now : Z) (st : State) : State :=
  {| activeUsers :=
       filter (λ kv, ¬ (now - joinedAt kv.2 > staleness)%Z) (activeUsers st);
     capsuleRooms := capsuleRooms st;
     io := io st |}.

(** ** The read queries (lines 257-272) *)

Definition getActiveUsers (st : State) : list ActiveUser :=
  (map_to_list (activeUsers st)).*2.

Definition getActiveUsersInCapsule (capsuleId : string) (st : State)
  : list ActiveUser :=
  match capsuleRooms st !! roomName capsuleId with
  | None => []
  | Some users => activeOf st users
  end.

Definition isUserOnline (uid : string) (st : State) : bool :=
  bool_decide (is_Some (activeUsers st !! uid)).

(** The member set of a capsule's room: the [Set] stored in [capsuleRooms],
    empty when the room has no entry. *)
Definition roomMembers (capsuleId : string) (st : State) : gset string :=
  default ∅ (capsuleRooms st !! roomName capsuleId).

(** ** The pin route ([src/routes/memories.js], lines 628-675) *)

Record Response := mkResponse {
  status : nat;
  success : bool;
  message : string;
  data_isPinned : option bool;
}.

Section PinRoute.
(** The three store calls the route awaits. *)
Variable MemoryItem_findById : string → Outcome (option MemoryItem).
Variable Capsule_findById : string → Outcome (option Capsule).
Variable memory_save : MemoryItem → Outcome unit.

Definition failed_to_pin : Response * option MemoryItem * list Output :=
  ({| status := 500; success := false; message := "Failed to pin memory";
      data_isPinned := None |},
   None, [ConsoleLog (log_error "Pin memory error:")]).

(** Lines 643-646. *)
Definition isAdmin (cap : Capsule) (uid : string) : bool :=
  existsb (λ c, bool_decide (c_user c = uid)
                && bool_decide (c_role c = admin)) (contributors cap).

(** The route handler, run for [req.user] (set by [authenticateToken]) and
    [req.params.id] on the socket server [req.io]: the response, the
    document written by [memory.save()] if any, and what was emitted.  A
    capsule that does not resolve makes [capsule.owner] throw, which the
    [catch] turns into the 500 response like every other exception. *)
Definition pin (req_io : SocketIO.t) (req_user : User) (param_id : string)
  : Response * option MemoryItem * list Output :=
  match MemoryItem_findById param_id with
  | Threw => failed_to_pin
  | Returned None =>
      ({| status := 404; success := false; message := "Memory not found";
          data_isPinned := None |}, None, [])
  | Returned (Some memory) =>
      match Capsule_findById (capsule memory) with
      | Threw | Returned None => failed_to_pin
      | Returned (Some cap) =>
          let isOwner := bool_decide (owner cap = user_id req_user) in
          if negb isOwner && negb (isAdmin cap (user_id req_user)) then
            ({| status := 403; success := false;
                message := "Access denied - admin privileges required";
                data_isPinned := None |}, None, [])
          else
            let memory' :=
              {| memory_id := memory_id memory; capsule := capsule memory;
                 isPinned := negb (isPinned memory) |} in
            match memory_save memory' with
            | Threw => failed_to_pin
            | Returned _ =>
                ({| status := 200; success := true;
                    message := if isPinned memory' then "Memory pinned"
                               else "Memory unpinned";
                    data_isPinned := Some (isPinned memory') |},
                 Some memory',
                 SocketIO.io_to_emit (roomName (capsule memory'))
                   (memory_pinned (memory_id memory') (isPinned memory')
                      req_user) req_io)
            end
      end
  end.
End PinRoute.

(** ** Runs of the socket server *)

(** A handshake: refused by the middleware, or accepted, in which case the
    library adds the socket to the namespace and runs the [connection]
    handler. *)
Definition connect (now : Z) (socket : Socket) (st : State)
  : State * list Output :=
  on_connection now socket
    {| activeUsers := activeUsers st; capsuleRooms := capsuleRooms st;
       io := SocketIO.connect (id socket) (io st) |}.

Definition handshake (jwt_verify : string → option string)
  (User_findById : string → Outcome (option User))
  (now : Z) (sid : string) (token : option string) (st : State)
  : State * list Output :=
  match authenticate jwt_verify User_findById sid token with
  | inr msg => (st, [ConnectError sid msg])
  | inl socket => connect now socket st
  end.

(** The end of a connection: the library takes the socket out of its rooms
    and of the namespace, then runs the [disconnect] handler. *)
Definition disconnect (socket : Socket) (reason : string) (st : State)
  : State * list Output :=
  on_disconnect socket reason
    {| activeUsers := activeUsers st; capsuleRooms := capsuleRooms st;
       io := SocketIO.disconnect (id socket) (io st) |}.

(** One thing that happens to the server: a connection, an inbound event
    of a connected socket (with the outcome of the store call its handler
    awaits), a disconnection, or a tick of the sweep. *)
Inductive Action :=
| Connect (now : Z) (socket : Socket)
| JoinCapsules (socket : Socket) (found : Outcome (list Capsule))
| JoinCapsule (socket : Socket) (capsuleId : string)
    (found : Outcome (option Capsule))
| LeaveCapsule (socket : Socket) (capsuleId : string)
| TypingStart (socket : Socket) (capsuleId memoryId : string)
| TypingStop (socket : Socket) (capsuleId memoryId : string)
| LiveReaction (now : Z) (socket : Socket)
    (capsuleId memoryId emoji position : string)
| ViewingMemory (socket : Socket) (capsuleId memoryId : string)
| Disconnect (socket : Socket) (reason : string)
| Sweep (now : Z).

Definition step (a : Action) (st : State) : State * list Output :=
  match a with
  | Connect now socket => connect now socket st
  | JoinCapsules socket found => join_capsules socket found st
  | JoinCapsule socket c found => join_capsule socket c found st
  | LeaveCapsule socket c => leave_capsule socket c st
  | TypingStart socket c m => typing_start socket c m st
  | TypingStop socket c m => typing_stop socket c m st
  | LiveReaction now socket c m e p => on_live_reaction now socket c m e p st
  | ViewingMemory socket c m => viewing_memory socket c m st
  | Disconnect socket reason => disconnect socket reason st
  | Sweep now => (sweep now st, [])
  end.

(** A run: the actions in order, the outputs collected in order. *)
Definition run (acts : list Action) (st : State) : State * list Output :=
  foldl (λ acc a, let r := step a acc.1 in (r.1, acc.2 ++ r.2)) (st, []) acts.

(** ** A scenario: capsule C101, owner A, contributor B *)

Module Scenario.
Definition userA : User := mkUser "A" "Ann" "".
Definition userB : User := mkUser "B" "Bob" "".
Definition sockA : Socket := mkSocket "sA" "A" userA.
Definition sockB : Socket := mkSocket "sB" "B" userB.
Definition C101 : Capsule :=
  mkCapsule "C101" "A" [mkContributor "B" contributor].
Definition M1 : MemoryItem := mkMemory "M1" "C101" false.

(** A connects, B connects, both join the room of C101. *)
Definition joined : State * list Output :=
  run [Connect 0 sockA; Connect 1 sockB;
       JoinCapsule sockA "C101" (Returned (Some C101));
       JoinCapsule sockB "C101" (Returned (Some C101))] init.
End Scenario.

(** ** The HTTP middleware ([src/middleware/auth.js]) *)

(** [jwt.verify] as [authenticateToken] sees it: the [userId] of the
    payload, or the [name] of the error thrown. *)
Inductive JwtOutcome :=
| Verified (userId : string)
| JsonWebTokenError
| TokenExpiredError
| OtherJwtError.

(** [String.prototype.split] with a one-character separator: the pieces
    between the occurrences of the separator, [[""]] for the empty string. *)
Fixpoint split (sep : Ascii.ascii) (s : string) : list string :=
  match s with
  | EmptyString => [EmptyString]
  | String ch s' =>
      if Ascii.eqb ch sep then EmptyString :: split sep s'
      else match split sep s' with
           | piece :: pieces => String ch piece :: pieces
           | [] => [String ch EmptyString]
           end
  end.

(** The separator [" "]. *)
Definition space : Ascii.ascii := Ascii.ascii_of_nat 32.

(** [authHeader && authHeader.split(" ")[1]], lines 17-18 and 66-67: [None]
    is [undefined], for a header that is absent or has no second piece; an
    empty header is falsy and is the value of the conjunction. *)
Definition bearer_token (authHeader : option string) : option string :=
  match authHeader with
  | None => None
  | Some "" => Some ""
  | Some h => split space h !! 1
  end.

(** What a middleware does with a request: it calls [next()], with what it
    attached to the request, or it answers. *)
Inductive AuthResult :=
| AuthNext (req_user : User) (lastActive : Z)
| AuthRespond (status : nat) (message : string).

Section HttpAuth.
Variable jwt_verify : string → JwtOutcome.
Variable User_findById : string → Outcome (option User).
(** [user.save()], after [user.lastActive] was set. *)
Variable user_save : User → Z → Outcome unit.

Definition authentication_error : AuthResult * list Output :=
  (AuthRespond 500 "Authentication error",
   [ConsoleLog (log_error "Auth middleware error:")]).

(** [authenticateToken], lines 12-59. *)
Definition authenticateToken (now : Z) (authHeader : option string)
  : AuthResult * list Output :=
  match bearer_token authHeader with
  | None | Some "" => (AuthRespond 401 "Access token required", [])
  | Some token =>
      match jwt_verify token with
      | JsonWebTokenError => (AuthRespond 401 "Invalid token", [])
      | TokenExpiredError => (AuthRespond 401 "Token expired", [])
      | OtherJwtError => authentication_error
      | Verified decoded_userId =>
          match User_findById decoded_userId with
          | Threw => authentication_error
          | Returned None =>
              (AuthRespond 401 "Invalid token - user not found", [])
          | Returned (Some u) =>
              match user_save u now with
              | Threw => authentication_error
              | Returned _ => (AuthNext u now, [])
              end
          end
      end
  end.

(** [optionalAuth], lines 63-80: it always calls [next()]; the result is
    [req.user], set or not. *)
Definition optionalAuth (authHeader : option string) : option User :=
  match bearer_token authHeader with
  | None | Some "" => None
  | Some token =>
      match jwt_verify token with
      | Verified decoded_userId =>
          match User_findById decoded_userId with
          | Returned (Some u) => Some u
          | _ => None
          end
      | _ => None
      end
  end.
End HttpAuth.

(** The keys of [roleHierarchy], lines 116-121. *)
Inductive RoleName := role_viewer | role_contributor | role_admin | role_owner.

Definition roleHierarchy (r : RoleName) : nat :=
  match r with
  | role_viewer => 1
  | role_contributor => 2
  | role_admin => 3
  | role_owner => 4
  end.

(** The [role] of a contributor entry, as a key of [roleHierarchy]. *)
Definition role_name (r : Role) : RoleName :=
  match r with
  | admin => role_admin
  | contributor => role_contributor
  | viewer => role_viewer
  end.

Definition role_string (r : RoleName) : string :=
  match r with
  | role_viewer => "viewer"
  | role_contributor => "contributor"
  | role_admin => "admin"
  | role_owner => "owner"
  end.

(** What [checkCapsulePermission] does with a request: [next()], with
    [req.userRole] and, when it was set, [req.capsule]; or an answer. *)
Inductive PermissionResult :=
| PermNext (userRole : RoleName) (req_capsule : option Capsule)
| PermRespond (status : nat) (message : string).

(** [checkCapsulePermission(requiredRole)], lines 83-138, on the outcome
    [found] of [Capsule.findById(req.params.capsuleId)].  The required role
    is one of the four keys of the table, as at every call in the
    repository. *)
Definition checkCapsulePermission (requiredRole : RoleName)
  (found : Outcome (option Capsule)) (req_user : User)
  : PermissionResult * list Output :=
  match found with
  | Threw =>
      (PermRespond 500 "Permission check failed",
       [ConsoleLog (log_error "Permission check error:")])
  | Returned None => (PermRespond 404 "Capsule not found", [])
  | Returned (Some cap) =>
      if bool_decide (owner cap = user_id req_user) then
        (PermNext role_owner None, [])
      else
        match List.find (λ c, bool_decide (c_user c = user_id req_user))
                (contributors cap) with
        | None => (PermRespond 403 "Access denied - not a capsule member", [])
        | Some entry =>
            if Nat.ltb (roleHierarchy (role_name (c_role entry)))
                 (roleHierarchy requiredRole)
            then
              (PermRespond 403
                 (String.append "Access denied - "
                    (String.append (role_string requiredRole)
                       " role required")), [])
            else (PermNext (role_name (c_role entry)) (Some cap), [])
        end
  end.

(** ** The reaction route ([src/routes/memories.js], lines 515-575) *)

(** An entry of [memory.reactions]. *)
Record Reaction := mkReaction {
  r_user : string;
  r_emoji : string;
}.

#[global] Instance Reaction_eq_dec : EqDecision Reaction.
Proof. solve_decision. Defined.

(** The memory document, as the reaction route reads and writes it. *)
Record ReactedMemory := mkReacted {
  rm_id : string;
  rm_capsule : string;
  reactions : list Reaction;
}.

Inductive ReactionAction := added | removed.

(** The event of the route and what the route puts out. *)
Inductive ReactionEvent :=
| memory_reaction (memoryId : string) (reaction_user : User)
    (reaction_emoji : string) (action : ReactionAction).

Inductive ReactionOutput :=
| ReactionEmit (to : string) (ev : ReactionEvent)
| ReactionLog (label : string).

Record ReactionResponse := mkReactionResponse {
  rr_status : nat;
  rr_success : bool;
  rr_message : string;
  rr_reactions : option (list Reaction);
}.

(** The test the route applies to an entry, lines 537 and 543. *)
Definition is_reaction_of (uid emoji : string) (r : Reaction) : bool :=
  bool_decide (r_user r = uid) && bool_decide (r_emoji r = emoji).

Section ReactRoute.
Variable MemoryItem_findById : string → Outcome (option ReactedMemory).
Variable memory_save : ReactedMemory → Outcome unit.
(** [memory.populate("reactions.user", ...)]: it fills in the users of the
    entries, or throws. *)
Variable memory_populate : ReactedMemory → Outcome unit.

Definition failed_to_react
  (saved : option ReactedMemory)
  : ReactionResponse * option ReactedMemory * list ReactionOutput :=
  ({| rr_status := 500; rr_success := false;
      rr_message := "Failed to react to memory"; rr_reactions := None |},
   saved, [ReactionLog "React to memory error:"]).

(** The route handler for [req.user], [req.params.id] and the [emoji] of the
    body ([None] when the body has none): the response, the document
    written by [memory.save()] if any, and what was emitted.  The response
    lists the reactions by user id, where the route sends them with the
    users filled in. *)
Definition react (req_io : SocketIO.t) (req_user : User) (param_id : string)
  (emoji : option string)
  : ReactionResponse * option ReactedMemory * list ReactionOutput :=
  match emoji with
  | None | Some "" =>
      ({| rr_status := 400; rr_success := false;
          rr_message := "Emoji is required"; rr_reactions := None |}, None, [])
  | Some emoji =>
      match MemoryItem_findById param_id with
      | Threw => failed_to_react None
      | Returned None =>
          ({| rr_status := 404; rr_success := false;
              rr_message := "Memory not found"; rr_reactions := None |},
           None, [])
      | Returned (Some memory) =>
          let existingReaction :=
            List.find (is_reaction_of (user_id req_user) emoji)
              (reactions memory) in
          let reactions' :=
            match existingReaction with
            | Some _ =>
                List.filter
                  (λ r, negb (is_reaction_of (user_id req_user) emoji r))
                  (reactions memory)
            | None =>
                reactions memory
                ++ [{| r_user := user_id req_user; r_emoji := emoji |}]
            end in
          let memory' :=
            {| rm_id := rm_id memory; rm_capsule := rm_capsule memory;
               reactions := reactions' |} in
          match memory_save memory' with
          | Threw => failed_to_react None
          | Returned _ =>
              match memory_populate memory' with
              | Threw => failed_to_react (Some memory')
              | Returned _ =>
                  ({| rr_status := 200; rr_success := true;
                      rr_message := match existingReaction with
                                    | Some _ => "Reaction removed"
                                    | None => "Reaction added"
                                    end;
                      rr_reactions := Some reactions' |},
                   Some memory',
                   (λ to, ReactionEmit to
                            (memory_reaction (rm_id memory) req_user emoji
                               (match existingReaction with
                                | Some _ => removed
                                | None => added
                                end)))
                   <$> elements
                         (SocketIO.members (roomName (rm_capsule memory))
                            req_io))
              end
          end
      end
  end.
End ReactRoute.

(** ** Notions used in the statements *)

(** A credential the middleware refuses: no token, an empty token, or a
    token that [jwt.verify] rejects. *)
Definition bad_credential (jwt_verify : string → option string)
  (token : option string) : Prop :=
  match token with
  | None => True
  | Some tok => tok = "" ∨ jwt_verify tok = None
  end.

(** The two operations on presence: a connection that is accepted and a
    disconnection, each of the socket it happens to. *)
Inductive PresenceOp :=
| Register (now : Z) (socket : Socket)
| Unregister (socket : Socket) (reason : string).

Definition presence_action (op : PresenceOp) : Action :=
  match op with
  | Register now socket => Connect now socket
  | Unregister socket reason => Disconnect socket reason
  end.

(** The user was registered at some point and not unregistered since. *)
Definition registered_last (u : string) (ops : list PresenceOp) : Prop :=
  ∃ pre now socket post,
    ops = pre ++ Register now socket :: post
    ∧ userId socket = u
    ∧ ∀ socket' reason, Unregister socket' reason ∈ post → userId socket' ≠ u.

(** Every entry of [capsuleRooms] has a member. *)
Definition no_empty_room (st : State) : Prop :=
  ∀ room users, capsuleRooms st !! room = Some users → users ≠ ∅.

(** Every key of [capsuleRooms] is the room name of a capsule id. *)
Definition room_keys (st : State) : Prop :=
  ∀ room, is_Some (capsuleRooms st !! room) → ∃ c, room = roomName c.

(** The inbound events that concern rooms: everything but a connection, a
    disconnection and the sweep. *)
Definition room_action (a : Action) : bool :=
  match a with
  | Connect _ _ | Disconnect _ _ | Sweep _ => false
  | _ => true
  end.

(** The character occurs in the string. *)
Fixpoint occurs (ch : Ascii.ascii) (s : string) : bool :=
  match s with
  | EmptyString => false
  | String ch' s' => Ascii.eqb ch' ch || occurs ch s'
  end.

(** * Properties *)

(** ** What one connection receives *)

Lemma received_app sid (o1 o2 : list Output) :
  received sid (o1 ++ o2) = received sid o1 ++ received sid o2.
Proof. unfold received. apply omap_app. Qed.

Lemma received_emit sid to ev :
  received sid (SocketIO.emit to ev) = if decide (to = sid) then [ev] else [].
Proof. unfold SocketIO.emit, received. simpl. by case_decide. Qed.

Lemma received_cons_emit sid to ev (outs : list Output) :
  received sid (Emit to ev :: outs) =
  if decide (to = sid) then ev :: received sid outs else received sid outs.
Proof. unfold received. simpl. by destruct (decide (to = sid)). Qed.

(** An event sent to the sockets of a list without repetition reaches each of
    them once, and nobody else. *)
Lemma received_each sid ev (l : list string) :
  NoDup l →
  received sid ((λ to, Emit to ev) <$> l) = if decide (sid ∈ l) then [ev] else [].
Proof.
  induction 1 as [|x l Hx Hl IH].
  - rewrite decide_False; [done | apply not_elem_of_nil].
  - rewrite fmap_cons, received_cons_emit, IH.
    destruct (decide (x = sid)) as [->|Hne].
    + rewrite (decide_False (P := sid ∈ l)) by done.
      by rewrite decide_True by left.
    + destruct (decide (sid ∈ l)) as [Hin|Hnin].
      * rewrite decide_True; [done | by right].
      * rewrite decide_False; [done |].
        intros [?|?]%elem_of_cons; congruence.
Qed.

Lemma received_send sid ev (X : gset string) :
  received sid (SocketIO.send ev X) = if decide (sid ∈ X) then [ev] else [].
Proof.
  unfold SocketIO.send. rewrite received_each by apply NoDup_elements.
  destruct (decide (sid ∈ X)) as [H|H].
  - rewrite decide_True; [done | by apply elem_of_elements].
  - rewrite decide_False; [done | by rewrite elem_of_elements].
Qed.

(** In a list without repetition an element occurs once. *)
Lemma occurs_once (x : string) (l : list string) :
  NoDup l → x ∈ l → length (filter (λ v, v = x) l) = 1.
Proof.
  induction 1 as [|y l Hy Hl IH]; intros Hin.
  - by apply elem_of_nil in Hin.
  - destruct (decide (y = x)) as [->|Hne].
    + rewrite filter_cons_True by done. simpl. f_equal.
      destruct (filter (λ v, v = x) l) as [|z l'] eqn:Hf; [done |].
      assert (Hz : z ∈ filter (λ v, v = x) l) by (rewrite Hf; left).
      apply list_elem_of_filter in Hz as [-> Hz]. done.
    + rewrite filter_cons_False by done. apply IH.
      apply elem_of_cons in Hin as [?|?]; congruence.
Qed.

(** ** Rooms of the socket library *)

Lemma members_join sid room room' (s : SocketIO.t) :
  SocketIO.members room' (SocketIO.join sid room s) =
  if decide (room = room') then {[sid]} ∪ SocketIO.members room s
  else SocketIO.members room' s.
Proof.
  unfold SocketIO.members, SocketIO.join. simpl.
  destruct (decide (room = room')) as [<-|Hne].
  - by rewrite lookup_insert_eq.
  - by rewrite lookup_insert_ne.
Qed.

Lemma members_leave sid room room' (s : SocketIO.t) :
  SocketIO.members room' (SocketIO.leave sid room s) =
  if decide (room = room') then SocketIO.members room s ∖ {[sid]}
  else SocketIO.members room' s.
Proof.
  unfold SocketIO.members, SocketIO.leave, SocketIO.without. simpl.
  destruct (decide (room = room')) as [<-|Hne];
    destruct (SocketIO.rooms s !! room) as [m|] eqn:Hm; simpl.
  - destruct (decide (m ∖ {[sid]} = ∅)) as [He|He].
    + by rewrite lookup_delete_eq, He.
    + by rewrite lookup_insert_eq.
  - rewrite Hm. simpl. apply set_eq. intros x.
    rewrite elem_of_difference, elem_of_empty. tauto.
  - destruct (decide (m ∖ {[sid]} = ∅)) as [He|He].
    + by rewrite lookup_delete_ne.
    + by rewrite lookup_insert_ne.
  - done.
Qed.

(** ** Joining one room *)

Lemma hasAccess_true cap uid :
  hasAccess cap uid = true ↔
  owner cap = uid ∨ ∃ k, k ∈ contributors cap ∧ c_user k = uid.
Proof.
  unfold hasAccess. rewrite orb_true_iff, bool_decide_eq_true, existsb_exists.
  split; (intros [?|(k & Hk & Hu)]; [by left | right; exists k]).
  - apply list_elem_of_In in Hk. by apply bool_decide_eq_true in Hu.
  - split; [by apply list_elem_of_In | by apply bool_decide_eq_true].
Qed.

Lemma hasAccess_false cap uid :
  owner cap ≠ uid → (∀ k, k ∈ contributors cap → c_user k ≠ uid) →
  hasAccess cap uid = false.
Proof.
  intros Ho Hk. apply not_true_is_false. rewrite hasAccess_true.
  intros [?|(k & ? & ?)]; [done | by eapply Hk].
Qed.

Lemma roomMembers_track socket capsuleId st :
  roomMembers capsuleId (track socket (roomName capsuleId) st) =
  {[userId socket]} ∪ roomMembers capsuleId st.
Proof. unfold roomMembers, track. simpl. by rewrite lookup_insert_eq. Qed.

Lemma join_capsule_granted socket capsuleId cap st :
  hasAccess cap (userId socket) = true →
  (join_capsule socket capsuleId (Returned (Some cap)) st).1 =
  track socket (roomName capsuleId) st.
Proof. intros H. unfold join_capsule. by rewrite H. Qed.

(** C1. [join_capsule] answers "Capsule not found" when the id resolves to
    no capsule and "Access denied" when the user is neither the owner nor a
    listed contributor, and in both cases leaves the whole state, hence
    every room, as it was; when the user is the owner or a contributor, the
    user id is in the member set of the room afterwards. *)
Theorem join_capsule_checked socket capsuleId found st :
  (found = Returned None →
   join_capsule socket capsuleId found st =
   (st, [Emit (id socket) (error "Capsule not found")]))
  ∧ (∀ cap, found = Returned (Some cap) →
       owner cap ≠ userId socket →
       (∀ k, k ∈ contributors cap → c_user k ≠ userId socket) →
       join_capsule socket capsuleId found st =
       (st, [Emit (id socket) (error "Access denied")]))
  ∧ (∀ cap, found = Returned (Some cap) →
       owner cap = userId socket
       ∨ (∃ k, k ∈ contributors cap ∧ c_user k = userId socket) →
       userId socket
       ∈ roomMembers capsuleId (join_capsule socket capsuleId found st).1).
Proof.
  split; [by intros -> | split].
  - intros cap -> Ho Hk. unfold join_capsule.
    by rewrite (hasAccess_false _ _ Ho Hk).
  - intros cap -> Hacc%hasAccess_true.
    rewrite (join_capsule_granted _ _ _ _ Hacc), roomMembers_track.
    apply elem_of_union_l, elem_of_singleton. reflexivity.
Qed.

(** A stranger asking for C101, and anybody asking for a capsule that does
    not exist, are turned away; the contributor B gets in. *)
Lemma join_capsule_checked_witness :
  let stranger := mkSocket "sZ" "Z" (mkUser "Z" "Zed" "") in
  join_capsule Scenario.sockB "C404" (Returned None) init =
  (init, [Emit "sB" (error "Capsule not found")])
  ∧ join_capsule stranger "C101" (Returned (Some Scenario.C101)) init =
    (init, [Emit "sZ" (error "Access denied")])
  ∧ "B" ∈ roomMembers "C101"
            (join_capsule Scenario.sockB "C101"
               (Returned (Some Scenario.C101)) init).1.
Proof.
  intros stranger. split; [|split].
  - by apply (proj1 (join_capsule_checked Scenario.sockB "C404"
                       (Returned None) init)).
  - apply (proj1 (proj2 (join_capsule_checked stranger "C101"
                           (Returned (Some Scenario.C101)) init))
             Scenario.C101).
    + reflexivity.
    + vm_compute. discriminate.
    + intros k Hk. apply list_elem_of_singleton in Hk. subst k.
      vm_compute. discriminate.
  - apply (proj2 (proj2 (join_capsule_checked Scenario.sockB "C101"
                           (Returned (Some Scenario.C101)) init))
             Scenario.C101).
    + reflexivity.
    + right. exists (mkContributor "B" contributor).
      split; [apply list_elem_of_singleton |]; reflexivity.
Defined.

(** C8. Joining a room a second time changes nothing: the state after two
    successful [join_capsule]s of the same socket for the same capsule is
    the state after one, so the member set is the same, and the user id
    occurs once in it. *)
Theorem join_capsule_idempotent socket capsuleId cap1 cap2 st :
  hasAccess cap1 (userId socket) = true →
  hasAccess cap2 (userId socket) = true →
  let once := (join_capsule socket capsuleId (Returned (Some cap1)) st).1 in
  let twice := (join_capsule socket capsuleId (Returned (Some cap2)) once).1 in
  twice = once
  ∧ roomMembers capsuleId twice = roomMembers capsuleId once
  ∧ length (filter (λ v, v = userId socket)
              (elements (roomMembers capsuleId twice))) = 1.
Proof.
  intros H1 H2 once twice.
  assert (Heq : twice = once).
  { subst once twice. rewrite !join_capsule_granted by done.
    unfold track. simpl. rewrite !lookup_insert_eq. simpl.
    rewrite insert_insert_eq. unfold SocketIO.join. simpl.
    rewrite insert_insert_eq. f_equal; [|f_equal]; f_equal.
    - apply set_eq. intros x. rewrite !elem_of_union. tauto.
    - unfold SocketIO.members. simpl. rewrite lookup_insert_eq. simpl.
      apply set_eq. intros x. rewrite !elem_of_union. tauto. }
  split; [done | split; [by rewrite Heq |]].
  rewrite Heq. subst once. rewrite join_capsule_granted by done.
  rewrite roomMembers_track.
  apply occurs_once; [apply NoDup_elements |].
  apply elem_of_elements, elem_of_union_l, elem_of_singleton. reflexivity.
Qed.

Lemma join_capsule_idempotent_witness :
  let once :=
    (join_capsule Scenario.sockB "C101" (Returned (Some Scenario.C101))
       Scenario.joined.1).1 in
  let twice :=
    (join_capsule Scenario.sockB "C101" (Returned (Some Scenario.C101))
       once).1 in
  twice = once
  ∧ roomMembers "C101" twice = roomMembers "C101" once
  ∧ length (filter (λ v, v = "B") (elements (roomMembers "C101" twice))) = 1.
Proof.
  apply (join_capsule_idempotent Scenario.sockB "C101" Scenario.C101
           Scenario.C101 Scenario.joined.1); reflexivity.
Defined.

(** ** Broadcasts to a room *)

Lemma received_to_emit t sid room ev (s : SocketIO.t) :
  received t (SocketIO.to_emit sid room ev s) =
  if decide (t ∈ SocketIO.members room s ∧ t ≠ sid) then [ev] else [].
Proof.
  unfold SocketIO.to_emit. rewrite received_send.
  destruct (decide (t ∈ SocketIO.members room s ∖ {[sid]})) as [H|H];
    rewrite elem_of_difference, not_elem_of_singleton in H.
  - by rewrite decide_True.
  - by rewrite decide_False.
Qed.

Lemma received_io_to_emit t room ev (s : SocketIO.t) :
  received t (SocketIO.io_to_emit room ev s) =
  if decide (t ∈ SocketIO.members room s) then [ev] else [].
Proof. apply received_send. Qed.

(** C7. [socket.to(room).emit(evt)], the broadcast to a room that leaves the
    sender out, reaches every connection in the room other than the sender's
    exactly once and no other connection, whether or not the sender is in
    the room; this is what [typing_start] and [typing_stop] send, and they
    leave the state alone. *)
Theorem room_broadcast_excludes_sender
  (isTyping : bool) socket capsuleId memoryId st (t : string) :
  (∀ ev,
     received t (SocketIO.to_emit (id socket) (roomName capsuleId) ev (io st)) =
     if decide (t ∈ SocketIO.members (roomName capsuleId) (io st)
                ∧ t ≠ id socket)
     then [ev] else [])
  ∧ (typing isTyping socket capsuleId memoryId st).1 = st
  ∧ received t (typing isTyping socket capsuleId memoryId st).2 =
    if decide (t ∈ SocketIO.members (roomName capsuleId) (io st)
               ∧ t ≠ id socket)
    then [user_typing (userId socket) (user socket) capsuleId memoryId
            isTyping]
    else [].
Proof.
  split; [intros ev; apply received_to_emit |].
  split; [reflexivity | apply received_to_emit].
Qed.

(** In the scenario A types: B hears it once, A, a member too, does not. *)
Example typing_in_C101 :
  received "sB" (typing_start Scenario.sockA "C101" "M1" Scenario.joined.1).2
  = [user_typing "A" Scenario.userA "C101" "M1" true]
  ∧ received "sA"
      (typing_start Scenario.sockA "C101" "M1" Scenario.joined.1).2 = [].
Proof. split; reflexivity. Qed.

(** C10. [leave_capsule] announces the departure whether or not the user
    was tracked as a member: when the user id is not in the room's member
    set, every connection in the room other than the sender's still receives
    [user_left_capsule], once. *)
Theorem leave_capsule_announces_nonmember socket capsuleId st (t : string) :
  userId socket ∉ roomMembers capsuleId st →
  t ∈ SocketIO.members (roomName capsuleId) (io st) →
  t ≠ id socket →
  received t (leave_capsule socket capsuleId st).2 =
  [user_left_capsule (userId socket) (user socket) capsuleId].
Proof.
  intros _ Ht Hne. unfold leave_capsule. simpl.
  rewrite received_app, received_to_emit, members_leave.
  rewrite (decide_True (P := roomName capsuleId = roomName capsuleId)) by done.
  rewrite decide_True; [done |].
  split; [|done]. apply elem_of_difference. split; [done |].
  by apply not_elem_of_singleton.
Qed.

(** A third user, connected but never joined, leaves C101: A is told. *)
Lemma leave_capsule_announces_nonmember_witness :
  let sockC := mkSocket "sC" "C" (mkUser "C" "Cy" "") in
  let st := (connect 2 sockC Scenario.joined.1).1 in
  received "sA" (leave_capsule sockC "C101" st).2 =
  [user_left_capsule "C" (mkUser "C" "Cy" "") "C101"].
Proof.
  intros sockC st.
  apply (leave_capsule_announces_nonmember sockC "C101" st "sA").
  - vm_compute. discriminate.
  - vm_compute. reflexivity.
  - discriminate.
Defined.

(** ** The pin route *)

(** A pin that goes through emits [memory_pinned], with the toggled flag,
    to the room of the memory's capsule and to nobody else. *)
Lemma pin_emits
  (MemoryItem_findById : string → Outcome (option MemoryItem))
  (Capsule_findById : string → Outcome (option Capsule))
  (memory_save : MemoryItem → Outcome unit)
  req_io req_user param_id memory cap :
  MemoryItem_findById param_id = Returned (Some memory) →
  Capsule_findById (capsule memory) = Returned (Some cap) →
  owner cap = user_id req_user ∨ isAdmin cap (user_id req_user) = true →
  (∀ m, memory_save m = Returned ()) →
  (pin MemoryItem_findById Capsule_findById memory_save
     req_io req_user param_id).2 =
  SocketIO.io_to_emit (roomName (capsule memory))
    (memory_pinned (memory_id memory) (negb (isPinned memory)) req_user)
    req_io.
Proof.
  intros Hm Hc Hrole Hs. unfold pin. rewrite Hm, Hc.
  assert (negb (bool_decide (owner cap = user_id req_user))
          && negb (isAdmin cap (user_id req_user)) = false) as ->.
  { destruct Hrole as [Ho|Ha].
    - by rewrite bool_decide_eq_true_2.
    - rewrite Ha. apply andb_false_r. }
  by rewrite Hs.
Qed.

(** C2, as the code has it. When A, the owner, pins a memory that is not
    pinned yet while the connections of A and of B are both in the
    capsule's room, B's connection receives exactly one [memory_pinned]
    event with the memory id and [isPinned = true], and so does A's: the
    route broadcasts with [io.to(room)], which leaves nobody out. *)
Theorem pin_reaches_actor_too
  (MemoryItem_findById : string → Outcome (option MemoryItem))
  (Capsule_findById : string → Outcome (option Capsule))
  (memory_save : MemoryItem → Outcome unit)
  req_io (sockA sockB : Socket) (req_user : User) param_id memory cap :
  MemoryItem_findById param_id = Returned (Some memory) →
  isPinned memory = false →
  Capsule_findById (capsule memory) = Returned (Some cap) →
  owner cap = user_id req_user →
  (∀ m, memory_save m = Returned ()) →
  userId sockA = user_id req_user →
  id sockA ∈ SocketIO.members (roomName (capsule memory)) req_io →
  id sockB ∈ SocketIO.members (roomName (capsule memory)) req_io →
  let outs :=
    (pin MemoryItem_findById Capsule_findById memory_save
       req_io req_user param_id).2 in
  received (id sockB) outs = [memory_pinned (memory_id memory) true req_user]
  ∧ received (id sockA) outs =
    [memory_pinned (memory_id memory) true req_user].
Proof.
  intros Hm Hp Hc Ho Hs _ HA HB outs. subst outs.
  rewrite (pin_emits _ _ _ _ _ _ _ _ Hm Hc (or_introl Ho) Hs), Hp.
  rewrite !received_io_to_emit. by rewrite !decide_True.
Qed.

(** In the scenario, A pins M1 of C101. *)
Lemma pin_reaches_actor_too_witness :
  let outs :=
    (pin (λ _, Returned (Some Scenario.M1)) (λ _, Returned (Some Scenario.C101))
       (λ _, Returned ()) (io Scenario.joined.1) Scenario.userA "M1").2 in
  received "sB" outs = [memory_pinned "M1" true Scenario.userA]
  ∧ received "sA" outs = [memory_pinned "M1" true Scenario.userA].
Proof.
  apply (pin_reaches_actor_too
           (λ _, Returned (Some Scenario.M1))
           (λ _, Returned (Some Scenario.C101)) (λ _, Returned ())
           (io Scenario.joined.1) Scenario.sockA Scenario.sockB Scenario.userA
           "M1" Scenario.M1 Scenario.C101);
    reflexivity.
Defined.

(** C2, as stated, fails in the scenario: B receives the event once, but
    A's connection does not receive none. *)
Lemma pin_actor_not_excluded :
  let outs :=
    (pin (λ _, Returned (Some Scenario.M1)) (λ _, Returned (Some Scenario.C101))
       (λ _, Returned ()) (io Scenario.joined.1) Scenario.userA "M1").2 in
  ¬ (received "sB" outs = [memory_pinned "M1" true Scenario.userA]
     ∧ received "sA" outs = []).
Proof. vm_compute. intros [_ H]. discriminate H. Qed.

(** ** The sweep *)

Lemma activeOf_sweep now st (users : gset string) :
  activeOf (sweep now st) users =
  filter (λ e, ¬ (now - joinedAt e > staleness)%Z) (activeOf st users).
Proof.
  unfold activeOf. induction (elements users) as [|uid l IH]; [done |].
  cbn [omap list_omap]. rewrite IH. unfold sweep at 1. cbn [activeUsers].
  rewrite map_lookup_filter.
  destruct (activeUsers st !! uid) as [e|]; simpl; [|done].
  destruct (decide (now - joinedAt e > staleness)%Z) as [H|H].
  - rewrite option_guard_False by (simpl; tauto).
    by rewrite filter_cons_False by tauto.
  - rewrite option_guard_True by done. by rewrite filter_cons_True.
Qed.

(** C3, as the code has it. The sweep, set to run every five minutes,
    evicts the [activeUsers] entry of a user exactly when more than one hour
    has passed since [joinedAt], the time of the connection; it leaves
    [capsuleRooms] and the rooms of the socket server as they are, so the
    user's room memberships stay; [getActiveUsersInCapsule] stops listing
    the evicted entries all the same, because it drops the members that have
    no entry. *)
Theorem sweep_evicts_presence_only now st :
  sweep_period = 300000%Z
  ∧ capsuleRooms (sweep now st) = capsuleRooms st
  ∧ io (sweep now st) = io st
  ∧ (∀ c, roomMembers c (sweep now st) = roomMembers c st)
  ∧ (∀ u, activeUsers (sweep now st) !! u =
          match activeUsers st !! u with
          | Some e => if decide (now - joinedAt e > 3600000)%Z then None
                      else Some e
          | None => None
          end)
  ∧ (∀ c, getActiveUsersInCapsule c (sweep now st) =
          filter (λ e, ¬ (now - joinedAt e > 3600000)%Z)
            (getActiveUsersInCapsule c st)).
Proof.
  split; [done | split; [done | split; [done | split; [done | split]]]].
  - intros u. unfold sweep. simpl. rewrite map_lookup_filter.
    destruct (activeUsers st !! u) as [e|]; simpl; [|done].
    unfold staleness.
    destruct (decide (now - joinedAt e > 3600000)%Z) as [H|H].
    + rewrite option_guard_False; [done |]. simpl. tauto.
    + by rewrite option_guard_True.
  - intros c. unfold getActiveUsersInCapsule.
    change (capsuleRooms (sweep now st)) with (capsuleRooms st).
    destruct (capsuleRooms st !! roomName c) as [users|]; [|done].
    apply activeOf_sweep.
Qed.

(** C3, as stated, fails in the scenario: more than an hour after A
    connected the sweep evicts A's entry, and A is still in the member set
    of C101's room. *)
Lemma sweep_keeps_membership :
  let st := sweep 3600001 Scenario.joined.1 in
  activeUsers st !! "A" = None
  ∧ ¬ (∀ c, "A" ∉ roomMembers c st).
Proof.
  split; [by vm_compute |].
  intros H. apply (H "C101"). by vm_compute.
Qed.

(** ** The handshake *)

Lemma authenticate_bad jwt_verify User_findById sid token :
  bad_credential jwt_verify token →
  authenticate jwt_verify User_findById sid token = inr "Authentication error".
Proof.
  destruct token as [tok|]; simpl; [|done].
  intros [->|Hv]; [done |]. destruct tok; [done |]. by rewrite Hv.
Qed.

(** C9. A handshake with a missing or invalid credential registers nothing:
    the state is unchanged, so [getActiveUsers] answers as before and the
    user is no more online than before; the only output is the refusal sent
    to the connecting client, no event reaches any connection. *)
Theorem bad_handshake_leaves_no_trace
  jwt_verify User_findById now sid token st :
  bad_credential jwt_verify token →
  let r := handshake jwt_verify User_findById now sid token st in
  r.1 = st
  ∧ getActiveUsers r.1 = getActiveUsers st
  ∧ r.2 = [ConnectError sid "Authentication error"]
  ∧ (∀ t ev, Emit t ev ∉ r.2)
  ∧ (∀ t, received t r.2 = []).
Proof.
  intros Hbad r. subst r. unfold handshake.
  rewrite (authenticate_bad _ _ _ _ Hbad). simpl.
  repeat split; try done.
  intros t ev Hin. apply list_elem_of_singleton in Hin. discriminate Hin.
Qed.

(** A verifier that accepts the one token "tokA", and a store that knows A. *)
Lemma bad_handshake_leaves_no_trace_witness :
  let jwt_verify := λ tok, if decide (tok = "tokA") then Some "A" else None in
  let User_findById := λ uid : string,
    if decide (uid = "A") then Returned (Some Scenario.userA)
    else Returned None in
  let r := handshake jwt_verify User_findById 5 "sX" (Some "forged")
             Scenario.joined.1 in
  r.1 = Scenario.joined.1
  ∧ getActiveUsers r.1 = getActiveUsers Scenario.joined.1
  ∧ r.2 = [ConnectError "sX" "Authentication error"]
  ∧ (∀ t ev, Emit t ev ∉ r.2)
  ∧ (∀ t, received t r.2 = []).
Proof.
  intros jwt_verify User_findById.
  apply (bad_handshake_leaves_no_trace jwt_verify User_findById 5 "sX"
           (Some "forged") Scenario.joined.1).
  right. reflexivity.
Defined.

(** The same verifier and store accept "tokA": A is registered and the
    others are told. *)
Example good_handshake :
  let jwt_verify := λ tok, if decide (tok = "tokA") then Some "A" else None in
  let User_findById := λ uid : string,
    if decide (uid = "A") then Returned (Some Scenario.userA)
    else Returned None in
  let r := handshake jwt_verify User_findById 5 "sA" (Some "tokA")
             (connect 1 Scenario.sockB init).1 in
  isUserOnline "A" r.1 = true
  ∧ received "sB" r.2 = [user_online "A" Scenario.userA].
Proof. split; reflexivity. Qed.

(** ** Runs *)

Lemma run_snoc acts a st :
  run (acts ++ [a]) st =
  ((step a (run acts st).1).1, (run acts st).2 ++ (step a (run acts st).1).2).
Proof. unfold run. by rewrite foldl_app. Qed.

(** ** Presence *)

Lemma isUserOnline_connect u now socket st :
  isUserOnline u (connect now socket st).1 =
  bool_decide (userId socket = u) || isUserOnline u st.
Proof.
  unfold isUserOnline, connect, on_connection. simpl.
  destruct (decide (userId socket = u)) as [->|Hne].
  - rewrite lookup_insert_eq. rewrite (bool_decide_eq_true_2 (u = u)) by done.
    by apply bool_decide_eq_true_2.
  - rewrite lookup_insert_ne by done.
    by rewrite (bool_decide_eq_false_2 (userId socket = u)).
Qed.

Lemma isUserOnline_disconnect u socket reason st :
  isUserOnline u (disconnect socket reason st).1 =
  negb (bool_decide (userId socket = u)) && isUserOnline u st.
Proof.
  unfold isUserOnline, disconnect, on_disconnect. simpl.
  destruct (decide (userId socket = u)) as [->|Hne].
  - rewrite lookup_delete_eq. rewrite (bool_decide_eq_true_2 (u = u)) by done.
    apply bool_decide_eq_false_2. by intros [? ?].
  - rewrite lookup_delete_ne by done.
    by rewrite (bool_decide_eq_false_2 (userId socket = u)).
Qed.

Lemma snoc_split {A} (pre post l : list A) (x y : A) :
  pre ++ x :: post = l ++ [y] →
  (post = [] ∧ pre = l ∧ x = y)
  ∨ ∃ post', post = post' ++ [y] ∧ l = pre ++ x :: post'.
Proof.
  destruct post as [|z post0 _] using rev_ind; intros H.
  - left. apply app_inj_tail in H as [-> ->]. done.
  - right. exists post0. split; [|].
    + change (pre ++ x :: post0 ++ [z]) with (pre ++ (x :: post0) ++ [z]) in H.
      rewrite app_assoc in H. by apply app_inj_tail in H as [_ ->].
    + change (pre ++ x :: post0 ++ [z]) with (pre ++ (x :: post0) ++ [z]) in H.
      rewrite app_assoc in H. by apply app_inj_tail in H as [-> _].
Qed.

(** C6. After any sequence of registrations and unregistrations, started
    from the empty registry, [isUserOnline u] holds exactly when the sequence
    has a registration of [u] that no unregistration of [u] follows. *)
Theorem isUserOnline_last_presence (u : string) (ops : list PresenceOp) :
  isUserOnline u (run (presence_action <$> ops) init).1 = true
  ↔ registered_last u ops.
Proof.
  induction ops as [|op ops IH] using rev_ind.
  - split; [discriminate |]. intros (pre & ? & ? & ? & H & _).
    by destruct pre.
  - rewrite fmap_app.
    change (presence_action <$> [op]) with [presence_action op].
    rewrite run_snoc. unfold fst at 1.
    set (st := (run (presence_action <$> ops) init).1) in *.
    destruct op as [now socket | socket reason].
    + change (step (presence_action (Register now socket)) st)
        with (connect now socket st).
      rewrite isUserOnline_connect, orb_true_iff, bool_decide_eq_true, IH.
      split.
      * intros [Hu | (pre & n & s & post & -> & Hs & Hpost)].
        -- exists ops, now, socket, []. split; [done | split; [done |]].
           intros ? ? Hin. by apply elem_of_nil in Hin.
        -- exists pre, n, s, (post ++ [Register now socket]).
           split; [by rewrite <- app_assoc | split; [done |]].
           intros s' r [Hin | Hin]%elem_of_app; [by eapply Hpost |].
           apply list_elem_of_singleton in Hin. discriminate Hin.
      * intros (pre & n & s & post & Heq & Hs & Hpost).
        symmetry in Heq.
        apply snoc_split in Heq as [(-> & -> & [= -> ->]) | (post' & -> & ->)].
        -- by left.
        -- right. exists pre, n, s, post'. split; [done | split; [done |]].
           intros s' r Hin. eapply Hpost, elem_of_app. by left.
    + change (step (presence_action (Unregister socket reason)) st)
        with (disconnect socket reason st).
      rewrite isUserOnline_disconnect, andb_true_iff, negb_true_iff,
        bool_decide_eq_false, IH.
      split.
      * intros [Hne (pre & n & s & post & -> & Hs & Hpost)].
        exists pre, n, s, (post ++ [Unregister socket reason]).
        split; [by rewrite <- app_assoc | split; [done |]].
        intros s' r [Hin | Hin]%elem_of_app; [by eapply Hpost |].
        apply list_elem_of_singleton in Hin. by inversion Hin; subst.
      * intros (pre & n & s & post & Heq & Hs & Hpost).
        symmetry in Heq.
        apply snoc_split in Heq as [(_ & _ & [=]) | (post' & -> & ->)].
        split.
        -- eapply Hpost, elem_of_app. right. left.
        -- exists pre, n, s, post'. split; [done | split; [done |]].
           intros s' r Hin. eapply Hpost, elem_of_app. by left.
Qed.

(** A connects, disconnects and connects again; B connects and goes. *)
Example presence_AB :
  let ops := [Register 0 Scenario.sockA; Register 1 Scenario.sockB;
              Unregister Scenario.sockA "transport close";
              Unregister Scenario.sockB "transport close";
              Register 9 Scenario.sockA] in
  isUserOnline "A" (run (presence_action <$> ops) init).1 = true
  ∧ isUserOnline "B" (run (presence_action <$> ops) init).1 = false.
Proof. split; reflexivity. Qed.

(** ** Rooms are never left empty *)

Lemma track_no_empty_room socket room st :
  no_empty_room st → no_empty_room (track socket room st).
Proof.
  intros Hst room' users. unfold track. simpl.
  destruct (decide (room = room')) as [<-|Hne].
  - rewrite lookup_insert_eq. intros [= <-] He.
    apply (not_elem_of_empty (C := gset string) (userId socket)).
    rewrite <- He. apply elem_of_union_l, elem_of_singleton. reflexivity.
  - rewrite lookup_insert_ne by done. apply Hst.
Qed.

Lemma join_each_state socket (caps : list Capsule) acc :
  (foldl (join_each socket) acc caps).1 =
  foldl (λ st cap, track socket (roomName (capsule_id cap)) st) acc.1 caps.
Proof.
  revert acc. induction caps as [|cap caps IH]; intros acc; [done |].
  simpl. by rewrite IH.
Qed.

Lemma untrack_lookup uid room room' (rooms : gmap string (gset string)) :
  untrack uid room rooms !! room' =
  if decide (room = room') then
    match rooms !! room with
    | Some users =>
        if decide (users ∖ {[uid]} = ∅) then None else Some (users ∖ {[uid]})
    | None => None
    end
  else rooms !! room'.
Proof.
  unfold untrack. destruct (decide (room = room')) as [<-|Hne].
  - destruct (rooms !! room) as [users|] eqn:Hr; [|done].
    destruct (decide (size (users ∖ {[uid]}) = 0)) as [Hs|Hs].
    + apply size_empty_iff, leibniz_equiv in Hs.
      by rewrite lookup_delete_eq, decide_True.
    + rewrite lookup_insert_eq, decide_False; [done |].
      intros He. apply Hs. by rewrite He, size_empty.
  - destruct (rooms !! room) as [users|] eqn:Hr; [|done].
    destruct (decide (size (users ∖ {[uid]}) = 0)).
    + by rewrite lookup_delete_ne.
    + by rewrite lookup_insert_ne.
Qed.

Lemma drop_user_Some uid users users' :
  drop_user uid users = Some users' →
  (uid ∉ users') ∧ (uid ∈ users → users' ≠ ∅) ∧ (uid ∉ users → users' = users).
Proof.
  unfold drop_user. destruct (decide (uid ∈ users)) as [Hin|Hnin].
  - destruct (decide (size (users ∖ {[uid]}) = 0)) as [Hs|Hs]; [done |].
    intros [= <-]. split; [|split; [|done]].
    + rewrite elem_of_difference, elem_of_singleton. tauto.
    + intros _ He. apply Hs. by rewrite He, size_empty.
  - intros [= <-]. done.
Qed.

Lemma step_no_empty_room a st :
  no_empty_room st → no_empty_room (step a st).1.
Proof.
  intros Hst. destruct a as [now s | s found | s c found | s c | s c m | s c m
                            | now s c m e p | s c m | s reason | now];
    simpl; try done.
  - destruct found as [|caps]; [done |]. simpl. rewrite join_each_state. simpl.
    revert st Hst. induction caps as [|cap caps IH]; intros st Hst; [done |].
    simpl. by apply IH, track_no_empty_room.
  - destruct found as [|[cap|]]; simpl; try done.
    destruct (hasAccess cap (userId s)); [|done].
    by apply track_no_empty_room.
  - intros room users. simpl. rewrite untrack_lookup.
    destruct (decide (roomName c = room)) as [_|_]; [|apply Hst].
    destruct (capsuleRooms st !! roomName c) as [users0|]; [|done].
    destruct (decide (users0 ∖ {[userId s]} = ∅)); [done |].
    by intros [= <-].
  - intros room users. simpl. rewrite lookup_omap.
    destruct (capsuleRooms st !! room) as [users0|] eqn:Hr; [|done]. simpl.
    intros (_ & Hin & Hnin)%drop_user_Some.
    destruct (decide (userId s ∈ users0)) as [H|H]; [by apply Hin |].
    rewrite (Hnin H). by eapply Hst.
Qed.

Lemma run_no_empty_room acts : no_empty_room (run acts init).1.
Proof.
  induction acts as [|a acts IH] using rev_ind.
  - intros room users. change (capsuleRooms (run [] init).1) with
      (∅ : gmap string (gset string)). by rewrite lookup_empty.
  - rewrite run_snoc. by apply step_no_empty_room.
Qed.

(** C5. No room is left with an empty member set: after any run from the
    empty registry every entry of [capsuleRooms] has a member; a
    [leave_capsule] of the only member removes the room's entry, and the
    query then finds nobody; a disconnection removes the user id from every
    room, and removes the entry of a room of which it was the only member. *)
Theorem no_empty_room_remains :
  (∀ acts room users,
     capsuleRooms (run acts init).1 !! room = Some users → users ≠ ∅)
  ∧ (∀ socket c st,
       capsuleRooms st !! roomName c = Some {[userId socket]} →
       capsuleRooms (leave_capsule socket c st).1 !! roomName c = None
       ∧ getActiveUsersInCapsule c (leave_capsule socket c st).1 = [])
  ∧ (∀ socket reason st room,
       (∀ users,
          capsuleRooms (disconnect socket reason st).1 !! room = Some users →
          userId socket ∉ users)
       ∧ (capsuleRooms st !! room = Some {[userId socket]} →
          capsuleRooms (disconnect socket reason st).1 !! room = None)).
Proof.
  split; [apply run_no_empty_room | split].
  - intros socket c st Hc.
    assert (Hgone :
      capsuleRooms (leave_capsule socket c st).1 !! roomName c = None).
    { simpl. rewrite untrack_lookup, decide_True, Hc by done.
      rewrite decide_True; [done |]. apply set_eq. intros x.
      rewrite elem_of_difference, elem_of_empty. tauto. }
    split; [done |]. unfold getActiveUsersInCapsule. by rewrite Hgone.
  - intros socket reason st room. simpl. rewrite lookup_omap. split.
    + intros users. destruct (capsuleRooms st !! room) as [users0|]; [|done].
      simpl. by intros (? & _)%drop_user_Some.
    + intros ->. simpl. unfold drop_user.
      rewrite decide_True by (by apply elem_of_singleton).
      rewrite decide_True; [done |]. apply size_empty_iff. intros x.
      rewrite elem_of_difference, elem_of_empty. tauto.
Qed.

(** In the scenario B leaves, then A: the room is gone. *)
Example C101_room_goes :
  let st := (run [LeaveCapsule Scenario.sockB "C101";
                  LeaveCapsule Scenario.sockA "C101"] Scenario.joined.1).1 in
  capsuleRooms st !! roomName "C101" = None.
Proof. reflexivity. Qed.

(** ** Joining all rooms *)

Lemma track_members socket room room' st :
  default ∅ (capsuleRooms (track socket room st) !! room') =
  if decide (room = room') then
    {[userId socket]} ∪ default ∅ (capsuleRooms st !! room)
  else default ∅ (capsuleRooms st !! room').
Proof.
  unfold track. simpl. destruct (decide (room = room')) as [<-|Hne].
  - by rewrite lookup_insert_eq.
  - by rewrite lookup_insert_ne.
Qed.

Lemma track_all_joined socket (caps : list Capsule) st room :
  let st' :=
    foldl (λ st cap, track socket (roomName (capsule_id cap)) st) st caps in
  (userId socket ∈ default ∅ (capsuleRooms st !! room)
   ∨ room ∈ (λ cap, roomName (capsule_id cap)) <$> caps →
   userId socket ∈ default ∅ (capsuleRooms st' !! room))
  ∧ (id socket ∈ SocketIO.members room (io st)
     ∨ room ∈ (λ cap, roomName (capsule_id cap)) <$> caps →
     id socket ∈ SocketIO.members room (io st')).
Proof.
  revert st. induction caps as [|cap caps IH]; intros st; simpl.
  - split; (intros [?|Hin]; [done | by apply elem_of_nil in Hin]).
  - destruct (IH (track socket (roomName (capsule_id cap)) st)) as [IH1 IH2].
    split; intros H.
    + apply IH1. rewrite track_members.
      destruct (decide (roomName (capsule_id cap) = room)) as [<-|Hne].
      * left. apply elem_of_union_l, elem_of_singleton. reflexivity.
      * destruct H as [?|[?|?]%elem_of_cons]; [by left | congruence | by right].
    + apply IH2. unfold track at 1. simpl. rewrite members_join.
      destruct (decide (roomName (capsule_id cap) = room)) as [<-|Hne].
      * left. apply elem_of_union_l, elem_of_singleton. reflexivity.
      * destruct H as [?|[?|?]%elem_of_cons]; [by left | congruence | by right].
Qed.

Lemma join_each_received socket (caps : list Capsule) acc (t : string) :
  received t (foldl (join_each socket) acc caps).2 =
  received t acc.2
  ++ if decide (t = id socket) then []
     else (λ cap, user_joined_capsule (userId socket) (user socket)
                    (capsule_id cap))
          <$> filter (λ cap, t ∈ SocketIO.members (roomName (capsule_id cap))
                                 (io acc.1)) caps.
Proof.
  revert acc. induction caps as [|cap caps IH]; intros acc.
  - cbn [foldl]. rewrite filter_nil. destruct (decide (t = id socket));
      by rewrite app_nil_r.
  - change (foldl (join_each socket) acc (cap :: caps))
      with (foldl (join_each socket) (join_each socket acc cap) caps).
    rewrite IH. unfold join_each at 1 3. cbn [fst snd].
    rewrite received_app, received_to_emit, <- app_assoc. f_equal.
    assert (Hsame : ∀ room,
      t ≠ id socket →
      t ∈ SocketIO.members room
            (io (track socket (roomName (capsule_id cap)) acc.1))
      ↔ t ∈ SocketIO.members room (io acc.1)).
    { intros room Hne. unfold track. cbn [io].
      rewrite (members_join _ _ room).
      destruct (decide (roomName (capsule_id cap) = room)) as [<-|?]; [|done].
      rewrite elem_of_union, elem_of_singleton. tauto. }
    destruct (decide (t = id socket)) as [->|Hne].
    + rewrite decide_False; [done | tauto].
    + change (join_each socket acc cap).1
        with (track socket (roomName (capsule_id cap)) acc.1).
      rewrite (list_filter_iff _
        (λ cap0, t ∈ SocketIO.members (roomName (capsule_id cap0)) (io acc.1)))
        by (intros cap0; by apply Hsame).
      rewrite filter_cons.
      destruct (decide (t ∈ SocketIO.members (roomName (capsule_id cap))
                          (io acc.1))) as [Hin|Hnin].
      * rewrite decide_True; [done |]. split; [by apply Hsame | done].
      * rewrite decide_False; [done |]. intros [Hin _].
        by apply Hnin, Hsame.
Qed.

(** C4, as the code has it. [join_capsules] puts the user in the room of
    every capsule that has the user as owner or as a contributor; the number
    of rooms is written to the console, nothing is sent back to the caller;
    and for each of these capsules a [user_joined_capsule] event goes to the
    other connections in its room. *)
Theorem join_capsules_announces_each_room
  socket (capsules : list Capsule) st :
  let userCapsules := Capsule_find_member capsules (userId socket) in
  let r := join_capsules socket (Returned userCapsules) st in
  (∀ cap, cap ∈ capsules →
     owner cap = userId socket
     ∨ (∃ k, k ∈ contributors cap ∧ c_user k = userId socket) →
     userId socket ∈ roomMembers (capsule_id cap) r.1
     ∧ id socket ∈ SocketIO.members (roomName (capsule_id cap)) (io r.1))
  ∧ ConsoleLog (log_joined_rooms (user_name (user socket))
                  (length userCapsules)) ∈ r.2
  ∧ received (id socket) r.2 = []
  ∧ (∀ t, t ≠ id socket →
       received t r.2 =
       (λ cap, user_joined_capsule (userId socket) (user socket)
                 (capsule_id cap))
       <$> filter (λ cap, t ∈ SocketIO.members (roomName (capsule_id cap))
                              (io st)) userCapsules).
Proof.
  intros userCapsules r. subst r. unfold join_capsules. cbn [fst snd].
  split; [|split; [|split]].
  - intros cap Hcap Hacc.
    assert (Hfound : roomName (capsule_id cap)
                     ∈ (λ cap, roomName (capsule_id cap)) <$> userCapsules).
    { apply list_elem_of_fmap. exists cap. split; [done |].
      apply list_elem_of_filter. split; [|done].
      destruct Hacc as [?|(k & Hk & Hu)]; [by left | right].
      apply list_elem_of_fmap. by exists k. }
    rewrite join_each_state. cbn [fst]. unfold roomMembers.
    destruct (track_all_joined socket userCapsules st
                (roomName (capsule_id cap))) as [H1 H2].
    split; [apply H1 | apply H2]; by right.
  - apply elem_of_app. right. left.
  - rewrite received_app, join_each_received. simpl.
    by rewrite decide_True.
  - intros t Hne. rewrite received_app, join_each_received. simpl.
    rewrite decide_False by done. by rewrite app_nil_r.
Qed.

(** C4, as stated, fails in the scenario: when A asks to join all its
    capsules, B, already in the room of C101, is sent [user_joined_capsule],
    so it is not the case that no such event is emitted. *)
Lemma join_capsules_not_silent :
  let outs :=
    (join_capsules Scenario.sockA
       (Returned (Capsule_find_member [Scenario.C101] "A"))
       Scenario.joined.1).2 in
  ¬ (∀ t u usr c, Emit t (user_joined_capsule u usr c) ∉ outs).
Proof.
  intros outs H. apply (H "sB" "A" Scenario.userA "C101").
  vm_compute. left.
Qed.

(** * Further properties of the handlers *)

(** ** Room names *)

Lemma roomName_inj c c' : roomName c = roomName c' → c = c'.
Proof.
  unfold roomName. simpl. change (String.append "" c) with c.
  change (String.append "" c') with c'. intros H. by injection H.
Qed.

Lemma substring_all (s : string) : String.substring 0 (String.length s) s = s.
Proof. induction s as [|a s IH]; [done |]. simpl. by rewrite IH. Qed.

Lemma replace_roomName c : replace "capsule_" "" (roomName c) = c.
Proof.
  unfold roomName. simpl. change (String.append "" c) with c.
  assert (String.prefix "" c = true) as -> by (by destruct c).
  by rewrite Nat.sub_0_r, substring_all.
Qed.

Lemma track_room_keys socket c st :
  room_keys st → room_keys (track socket (roomName c) st).
Proof.
  intros Hst room. unfold track. simpl.
  destruct (decide (roomName c = room)) as [<-|Hne]; [by exists c |].
  rewrite lookup_insert_ne by done. apply Hst.
Qed.

Lemma step_room_keys a st : room_keys st → room_keys (step a st).1.
Proof.
  intros Hst. destruct a as [now s | s found | s c found | s c | s c m | s c m
                            | now s c m e p | s c m | s reason | now];
    simpl; try done.
  - destruct found as [|caps]; [done |]. simpl. rewrite join_each_state. simpl.
    revert st Hst. induction caps as [|cap caps IH]; intros st Hst; [done |].
    simpl. by apply IH, track_room_keys.
  - destruct found as [|[cap|]]; simpl; try done.
    destruct (hasAccess cap (userId s)); [|done].
    by apply track_room_keys.
  - intros room. simpl. rewrite untrack_lookup.
    destruct (decide (roomName c = room)) as [<-|_]; [by exists c | apply Hst].
  - intros room. simpl. rewrite lookup_omap. intros [users Hu].
    apply Hst. destruct (capsuleRooms st !! room); [done | discriminate Hu].
Qed.

Lemma run_room_keys acts : room_keys (run acts init).1.
Proof.
  induction acts as [|a acts IH] using rev_ind.
  - intros room [users Hu]. change (capsuleRooms (run [] init).1) with
      (∅ : gmap string (gset string)) in Hu. by rewrite lookup_empty in Hu.
  - rewrite run_snoc. by apply step_room_keys.
Qed.

(** X1. After any run from the empty registry, every key of [capsuleRooms]
    is "capsule_" followed by a capsule id, and the [replace] of the
    disconnect handler gives that id back. *)
Theorem room_key_round_trip acts room :
  is_Some (capsuleRooms (run acts init).1 !! room) →
  ∃ c, room = roomName c ∧ replace "capsule_" "" room = c.
Proof.
  intros [c ->]%run_room_keys. exists c. by rewrite replace_roomName.
Qed.

Lemma room_key_round_trip_witness :
  ∃ c, roomName "C101" = roomName c
       ∧ replace "capsule_" "" (roomName "C101") = c.
Proof.
  apply (room_key_round_trip
           [Connect 0 Scenario.sockA;
            JoinCapsule Scenario.sockA "C101" (Returned (Some Scenario.C101))]
           (roomName "C101")).
  vm_compute. eexists. reflexivity.
Defined.

(** ** Disconnection *)

Lemma members_disconnect room sid (s : SocketIO.t) :
  SocketIO.members room (SocketIO.disconnect sid s) =
  SocketIO.members room s ∖ {[sid]}.
Proof.
  unfold SocketIO.members, SocketIO.disconnect, SocketIO.without. simpl.
  rewrite lookup_omap. destruct (SocketIO.rooms s !! room) as [m|]; simpl.
  - by destruct (decide (m ∖ {[sid]} = ∅)) as [->|].
  - apply set_eq. intros x. rewrite elem_of_difference, elem_of_empty. tauto.
Qed.

Lemma received_notify_left t socket (s : SocketIO.t) room users :
  received t (notify_left socket s (room, users)) =
  if decide (userId socket ∈ users ∧ t ∈ SocketIO.members room s
             ∧ t ≠ id socket)
  then [user_left_capsule (userId socket) (user socket)
          (replace "capsule_" "" room)]
  else [].
Proof.
  unfold notify_left. simpl.
  destruct (decide (userId socket ∈ users)) as [Hu|Hu].
  - rewrite received_to_emit.
    destruct (decide (t ∈ SocketIO.members room s ∧ t ≠ id socket)).
    + by rewrite decide_True.
    + rewrite decide_False; [done | tauto].
  - rewrite decide_False; [done | tauto].
Qed.

(** Among the notifications of a disconnection, those for rooms other than
    [c] are not the event for [c]. *)
Lemma left_events_other socket (s : SocketIO.t) t c
  (L : list (string * gset string)) :
  (∀ kv, kv ∈ L → ∃ c', kv.1 = roomName c') →
  roomName c ∉ L.*1 →
  filter (λ e, e = user_left_capsule (userId socket) (user socket) c)
    (received t (concat (notify_left socket s <$> L))) = [].
Proof.
  induction L as [|[room users] L IH]; intros Hkeys Hc; [done |].
  rewrite fmap_cons in Hc. apply not_elem_of_cons in Hc as [Hne Hc].
  change (concat (notify_left socket s <$> (room, users) :: L))
    with (notify_left socket s (room, users)
          ++ concat (notify_left socket s <$> L)).
  rewrite received_app, filter_app, IH; [|  | done].
  - destruct (Hkeys (room, users)) as [c' Hc']; [left |]. simpl in *. subst.
    rewrite received_notify_left, replace_roomName.
    destruct (decide _); [|done].
    rewrite filter_cons_False; [done |]. intros [= ->]. done.
  - intros kv Hkv. apply Hkeys. by right.
Qed.

Lemma left_events_once socket (s : SocketIO.t) t c users
  (L : list (string * gset string)) :
  NoDup L.*1 →
  (∀ kv, kv ∈ L → ∃ c', kv.1 = roomName c') →
  (roomName c, users) ∈ L →
  userId socket ∈ users → t ∈ SocketIO.members (roomName c) s →
  t ≠ id socket →
  filter (λ e, e = user_left_capsule (userId socket) (user socket) c)
    (received t (concat (notify_left socket s <$> L))) =
  [user_left_capsule (userId socket) (user socket) c].
Proof.
  intros Hnd Hkeys Hin Hu Ht Hne.
  induction L as [|[room users0] L IH]; [by apply elem_of_nil in Hin |].
  rewrite fmap_cons in Hnd. apply NoDup_cons in Hnd as [Hfresh Hnd].
  change (concat (notify_left socket s <$> (room, users0) :: L))
    with (notify_left socket s (room, users0)
          ++ concat (notify_left socket s <$> L)).
  rewrite received_app, filter_app.
  apply elem_of_cons in Hin as [[= <- <-]|Hin].
  - rewrite received_notify_left, replace_roomName, decide_True by done.
    rewrite filter_cons_True by done. simpl.
    rewrite left_events_other; [done | | done].
    intros kv Hkv. apply Hkeys. by right.
  - rewrite IH; [| done | | done].
    + destruct (Hkeys (room, users0)) as [c' Hc']; [left |]. simpl in *. subst.
      rewrite received_notify_left, replace_roomName.
      destruct (decide _); [|done].
      rewrite filter_cons_False; [done |]. intros [= ->].
      apply Hfresh. apply list_elem_of_fmap. by exists (roomName c, users).
    + intros kv Hkv. apply Hkeys. by right.
Qed.

(** X2. When a socket disconnects while its user is tracked in the room of
    capsule [c], every other connection in that room receives the
    [user_left_capsule] event for [c] exactly once. *)
Theorem disconnect_announces_once socket reason st c users (t : string) :
  room_keys st →
  capsuleRooms st !! roomName c = Some users →
  userId socket ∈ users →
  t ∈ SocketIO.members (roomName c) (io st) →
  t ≠ id socket →
  filter (λ e, e = user_left_capsule (userId socket) (user socket) c)
    (received t (disconnect socket reason st).2) =
  [user_left_capsule (userId socket) (user socket) c].
Proof.
  intros Hkeys Hc Hu Ht Hne. unfold disconnect, on_disconnect. cbn [snd io].
  change (received t (ConsoleLog ?l :: ?outs)) with (received t outs).
  rewrite received_app, filter_app.
  rewrite (left_events_once _ _ _ _ users); try done.
  - unfold SocketIO.broadcast_emit. rewrite received_send.
    destruct (decide _); [|done]. by rewrite filter_cons_False.
  - apply NoDup_fst_map_to_list.
  - intros [room users0] Hkv%elem_of_map_to_list. apply Hkeys. by eexists.
  - by apply elem_of_map_to_list.
  - rewrite members_disconnect. apply elem_of_difference. split; [done |].
    by apply not_elem_of_singleton.
Qed.

(** A leaves by closing the connection: B hears it once. *)
Lemma disconnect_announces_once_witness :
  filter (λ e, e = user_left_capsule "A" Scenario.userA "C101")
    (received "sB"
       (disconnect Scenario.sockA "transport close" Scenario.joined.1).2) =
  [user_left_capsule "A" Scenario.userA "C101"].
Proof.
  apply (disconnect_announces_once Scenario.sockA "transport close"
           Scenario.joined.1 "C101" {[ "A"; "B" ]} "sB").
  - apply (run_room_keys
             [Connect 0 Scenario.sockA; Connect 1 Scenario.sockB;
              JoinCapsule Scenario.sockA "C101" (Returned (Some Scenario.C101));
              JoinCapsule Scenario.sockB "C101"
                (Returned (Some Scenario.C101))]).
  - vm_compute. reflexivity.
  - vm_compute. reflexivity.
  - vm_compute. reflexivity.
  - discriminate.
Defined.

Lemma received_notify_all t socket (s : SocketIO.t)
  (L : list (string * gset string)) :
  Forall (λ e, ∃ c, e = user_left_capsule (userId socket) (user socket) c)
    (received t (concat (notify_left socket s <$> L)))
  ∧ (t = id socket → received t (concat (notify_left socket s <$> L)) = []).
Proof.
  induction L as [|[room users] L [IH1 IH2]]; [by split |].
  change (concat (notify_left socket s <$> (room, users) :: L))
    with (notify_left socket s (room, users)
          ++ concat (notify_left socket s <$> L)).
  rewrite received_app, received_notify_left. split.
  - apply Forall_app. split; [|done].
    destruct (decide _); [|done]. apply Forall_singleton. by eexists.
  - intros Ht. rewrite (IH2 Ht), decide_False; [done | tauto].
Qed.

(** X3. The disconnect handler sends nothing to the socket that went away;
    every other connected socket receives [user_offline] exactly once, as
    the last event of the disconnection. *)
Theorem disconnect_goes_offline socket reason st (t : string) :
  received (id socket) (disconnect socket reason st).2 = []
  ∧ (t ∈ SocketIO.sockets (io st) → t ≠ id socket →
     last (received t (disconnect socket reason st).2) =
     Some (user_offline (userId socket) (user socket))
     ∧ filter (λ e, e = user_offline (userId socket) (user socket))
         (received t (disconnect socket reason st).2) =
       [user_offline (userId socket) (user socket)]).
Proof.
  unfold disconnect, on_disconnect. cbn [snd io capsuleRooms].
  change (received ?x (ConsoleLog ?l :: ?outs)) with (received x outs).
  rewrite !received_app. unfold SocketIO.broadcast_emit.
  rewrite !received_send. split.
  - destruct (received_notify_all (id socket) socket
                (SocketIO.disconnect (id socket) (io st))
                (map_to_list (capsuleRooms st))) as [_ ->]; [|done].
    rewrite decide_False; [done |].
    rewrite elem_of_difference, elem_of_singleton. tauto.
  - intros Ht Hne. rewrite decide_True.
    + split; [by rewrite last_snoc |]. rewrite filter_app.
      rewrite filter_cons_True, filter_nil by done.
      destruct (received_notify_all t socket
                  (SocketIO.disconnect (id socket) (io st))
                  (map_to_list (capsuleRooms st))) as [Hall _].
      induction Hall as [|e l [c ->] _ IH]; [done |].
      by rewrite filter_cons_False.
    + simpl. rewrite !elem_of_difference, elem_of_singleton. tauto.
Qed.

Lemma disconnect_goes_offline_witness :
  received "sA"
    (disconnect Scenario.sockA "transport close" Scenario.joined.1).2 = []
  ∧ last (received "sB"
            (disconnect Scenario.sockA "transport close" Scenario.joined.1).2)
    = Some (user_offline "A" Scenario.userA)
  ∧ filter (λ e, e = user_offline "A" Scenario.userA)
      (received "sB"
         (disconnect Scenario.sockA "transport close" Scenario.joined.1).2)
    = [user_offline "A" Scenario.userA].
Proof.
  destruct (disconnect_goes_offline Scenario.sockA "transport close"
              Scenario.joined.1 "sB") as [H1 H2].
  split; [exact H1 | apply H2].
  - vm_compute. reflexivity.
  - discriminate.
Defined.

Lemma drop_user_absent uid (users : gset string) :
  uid ∉ users → drop_user uid users = Some users.
Proof. intros H. unfold drop_user. by rewrite decide_False. Qed.

Lemma without_absent sid (m : gset string) :
  sid ∉ m → m ≠ ∅ → SocketIO.without sid m = Some m.
Proof.
  intros Hs Hm. unfold SocketIO.without.
  assert (m ∖ {[sid]} = m) as ->.
  { apply set_eq. intros x. rewrite elem_of_difference, elem_of_singleton.
    split; [tauto |]. intros Hx. split; [done |]. by intros ->. }
  by rewrite decide_False.
Qed.

Lemma notify_left_nobody t socket (s : SocketIO.t)
  (L : list (string * gset string)) :
  (∀ kv, kv ∈ L → userId socket ∉ kv.2) →
  received t (concat (notify_left socket s <$> L)) = [].
Proof.
  induction L as [|[room users] L IH]; intros HL; [done |].
  change (concat (notify_left socket s <$> (room, users) :: L))
    with (notify_left socket s (room, users)
          ++ concat (notify_left socket s <$> L)).
  rewrite received_app, received_notify_left, IH.
  - rewrite decide_False; [done |]. intros [Hu _].
    by apply (HL (room, users)); [left |].
  - intros kv Hkv. apply HL. by right.
Qed.

(** X4. Disconnecting the same socket a second time changes nothing: the
    state stays as the first disconnection left it, and no room is told
    again that the user left. *)
Theorem disconnect_idempotent socket reason reason' st :
  let st1 := (disconnect socket reason st).1 in
  (disconnect socket reason' st1).1 = st1
  ∧ ∀ t c, user_left_capsule (userId socket) (user socket) c
           ∉ received t (disconnect socket reason' st1).2.
Proof.
  intros st1.
  assert (Hgone : ∀ room users,
            capsuleRooms st1 !! room = Some users → userId socket ∉ users).
  { intros room users. subst st1. simpl. rewrite lookup_omap.
    destruct (capsuleRooms st !! room) as [users0|]; [|done]. simpl.
    by intros [? _]%drop_user_Some. }
  assert (Hact : delete (userId socket) (activeUsers st1) = activeUsers st1).
  { apply map_eq. intros u. subst st1. simpl. rewrite !lookup_delete.
    by destruct (decide (userId socket = u)). }
  assert (Hio : SocketIO.disconnect (id socket) (io st1) = io st1).
  { subst st1. simpl. unfold SocketIO.disconnect.
    cbn [SocketIO.sockets SocketIO.rooms]. f_equal.
    - apply set_eq. intros x. rewrite !elem_of_difference. tauto.
    - apply map_eq. intros room. rewrite !lookup_omap.
      destruct (SocketIO.rooms (io st) !! room) as [m|]; simpl; [|done].
      destruct (SocketIO.without (id socket) m) as [m'|] eqn:Hw; [|done].
      simpl. unfold SocketIO.without in Hw.
      destruct (decide (m ∖ {[id socket]} = ∅)) as [He|He]; [done |].
      injection Hw as <-. apply without_absent; [|done].
      rewrite elem_of_difference, elem_of_singleton. tauto. }
  clearbody st1. destruct st1 as [act rooms ios]. simpl in *.
  split.
  - unfold disconnect, on_disconnect. simpl. rewrite Hact, Hio. f_equal.
    apply map_eq. intros room. rewrite lookup_omap.
    destruct (rooms !! room) as [users|] eqn:Hr; [|done]. simpl.
    apply drop_user_absent. by eapply Hgone.
  - intros t c. unfold disconnect, on_disconnect. cbn [snd io capsuleRooms].
    change (received ?x (ConsoleLog ?l :: ?outs)) with (received x outs).
    rewrite received_app, elem_of_app. intros [Hin|Hin].
    + rewrite notify_left_nobody in Hin; [by apply elem_of_nil in Hin |].
      intros [room users] Hkv%elem_of_map_to_list. by eapply Hgone.
    + unfold SocketIO.broadcast_emit in Hin. rewrite received_send in Hin.
      destruct (decide _); [|by apply elem_of_nil in Hin].
      apply list_elem_of_singleton in Hin. discriminate Hin.
Qed.

(** ** Connection *)

Lemma length_getActiveUsers st :
  length (getActiveUsers st) = size (activeUsers st).
Proof. unfold getActiveUsers. by rewrite length_fmap, length_map_to_list. Qed.

(** X5. A connection writes the user's entry (this socket, this time), leaves
    the entries of the other users and all rooms as they are, and tells every
    other connected socket exactly once that the user is online; the new
    socket itself is not told.  The list of active users grows by one entry
    only if the user had none. *)
Theorem connect_registers_and_announces now socket st (t : string) :
  activeUsers (connect now socket st).1 !! userId socket =
  Some {| socketId := id socket; au_user := user socket; joinedAt := now |}
  ∧ (∀ u, u ≠ userId socket →
          activeUsers (connect now socket st).1 !! u = activeUsers st !! u)
  ∧ capsuleRooms (connect now socket st).1 = capsuleRooms st
  ∧ length (getActiveUsers (connect now socket st).1) =
    (if isUserOnline (userId socket) st then length (getActiveUsers st)
     else S (length (getActiveUsers st)))
  ∧ received t (connect now socket st).2 =
    if decide (t ∈ SocketIO.sockets (io st) ∧ t ≠ id socket)
    then [user_online (userId socket) (user socket)] else [].
Proof.
  unfold connect, on_connection. cbn [fst snd activeUsers capsuleRooms io].
  split; [by rewrite lookup_insert_eq |].
  split; [by intros u Hu; rewrite lookup_insert_ne |].
  split; [done |]. split.
  - rewrite !length_getActiveUsers. cbn [activeUsers].
    rewrite map_size_insert. unfold isUserOnline.
    destruct (activeUsers st !! userId socket) as [e|] eqn:He.
    + rewrite bool_decide_eq_true_2; [done | by eexists].
    + rewrite bool_decide_eq_false_2; [done | by intros [? ?]].
  - change (received t (ConsoleLog ?l :: ?outs)) with (received t outs).
    unfold SocketIO.broadcast_emit. rewrite received_send.
    unfold SocketIO.connect. cbn [SocketIO.sockets].
    destruct (decide (t ∈ SocketIO.sockets (io st) ∧ t ≠ id socket))
      as [[Ht Hne]|Hn].
    + rewrite decide_True; [done |].
      rewrite elem_of_difference, elem_of_union, elem_of_singleton. tauto.
    + rewrite decide_False; [done |].
      rewrite elem_of_difference, elem_of_union, elem_of_singleton. tauto.
Qed.

(** X6. Presence is kept per user id, not per connection.  When a user who
    is connected connects again on another socket, the second entry replaces
    the first and the list of active users does not grow; when the first
    socket then disconnects, the user is reported offline although the
    second socket is still connected. *)
Theorem second_connection_takes_over now1 now2 s1 s2 reason st :
  userId s1 = userId s2 →
  id s1 ≠ id s2 →
  let st2 := (connect now2 s2 (connect now1 s1 st).1).1 in
  activeUsers st2 = activeUsers (connect now2 s2 st).1
  ∧ length (getActiveUsers st2) =
    length (getActiveUsers (connect now1 s1 st).1)
  ∧ isUserOnline (userId s2) (disconnect s1 reason st2).1 = false
  ∧ id s2 ∈ SocketIO.sockets (io (disconnect s1 reason st2).1).
Proof.
  intros Hu Hid st2. subst st2.
  unfold connect, on_connection, disconnect, on_disconnect.
  cbn [fst activeUsers capsuleRooms io]. rewrite Hu.
  split; [by rewrite insert_insert_eq |]. split; [|split].
  - rewrite !length_getActiveUsers. cbn [activeUsers].
    by rewrite insert_insert_eq, !map_size_insert.
  - unfold isUserOnline. cbn [activeUsers]. rewrite lookup_delete_eq.
    apply bool_decide_eq_false_2. by intros [? ?].
  - unfold SocketIO.disconnect, SocketIO.connect. cbn [SocketIO.sockets].
    rewrite elem_of_difference, !elem_of_union, !elem_of_singleton.
    split; [by left | congruence].
Qed.

(** A opens a second tab, then closes the first. *)
Lemma second_connection_takes_over_witness :
  let s2 := mkSocket "sA2" "A" Scenario.userA in
  let st2 := (connect 7 s2 (connect 0 Scenario.sockA init).1).1 in
  activeUsers st2 = activeUsers (connect 7 s2 init).1
  ∧ length (getActiveUsers st2) =
    length (getActiveUsers (connect 0 Scenario.sockA init).1)
  ∧ isUserOnline "A" (disconnect Scenario.sockA "transport close" st2).1
    = false
  ∧ "sA2" ∈ SocketIO.sockets
              (io (disconnect Scenario.sockA "transport close" st2).1).
Proof.
  intros s2.
  apply (second_connection_takes_over 0 7 Scenario.sockA s2
           "transport close" init).
  - reflexivity.
  - discriminate.
Defined.

(** ** Leaving and joining *)

(** X7. [leave_capsule] takes the user id out of the member set of that
    room and the socket out of the library room, and touches nothing else:
    the other rooms and the active users stay as they were. *)
Theorem leave_capsule_removes_only_leaver socket c c' st :
  roomMembers c' (leave_capsule socket c st).1 =
  (if decide (c = c') then roomMembers c st ∖ {[userId socket]}
   else roomMembers c' st)
  ∧ SocketIO.members (roomName c') (io (leave_capsule socket c st).1) =
    (if decide (c = c')
     then SocketIO.members (roomName c) (io st) ∖ {[id socket]}
     else SocketIO.members (roomName c') (io st))
  ∧ activeUsers (leave_capsule socket c st).1 = activeUsers st.
Proof.
  unfold leave_capsule, roomMembers. cbn [fst capsuleRooms io activeUsers].
  rewrite untrack_lookup, members_leave.
  destruct (decide (c = c')) as [<-|Hne].
  - rewrite !decide_True by done. split; [|done].
    destruct (capsuleRooms st !! roomName c) as [users|]; simpl.
    + by destruct (decide (users ∖ {[userId socket]} = ∅)) as [->|].
    + apply set_eq. intros x. rewrite elem_of_difference, elem_of_empty. tauto.
  - rewrite !decide_False; [done | |]; by intros ?%roomName_inj.
Qed.

(** X8. Joining a room and leaving it again leaves [capsuleRooms] as it
    was, when the user was not in the room before and no room was empty. *)
Theorem join_then_leave_restores socket c cap st :
  hasAccess cap (userId socket) = true →
  no_empty_room st →
  userId socket ∉ roomMembers c st →
  capsuleRooms
    (leave_capsule socket c
       (join_capsule socket c (Returned (Some cap)) st).1).1 =
  capsuleRooms st.
Proof.
  intros Hacc Hst Hu. rewrite join_capsule_granted by done.
  unfold leave_capsule, track, roomMembers in *.
  cbn [fst capsuleRooms]. apply map_eq. intros room.
  rewrite untrack_lookup, lookup_insert_eq.
  destruct (decide (roomName c = room)) as [<-|Hne].
  - assert (Hd : ({[userId socket]} ∪ default ∅ (capsuleRooms st !! roomName c))
                 ∖ {[userId socket]}
                 = default ∅ (capsuleRooms st !! roomName c)).
    { apply set_eq. intros x.
      rewrite elem_of_difference, elem_of_union, elem_of_singleton.
      split; [tauto |]. intros Hx. split; [by right |]. by intros ->. }
    rewrite Hd. destruct (capsuleRooms st !! roomName c) as [users|] eqn:Hr.
    + simpl. rewrite decide_False; [done | by eapply Hst].
    + simpl. by rewrite decide_True.
  - by rewrite lookup_insert_ne.
Qed.

Lemma join_then_leave_restores_witness :
  let st := (run [Connect 0 Scenario.sockA; Connect 1 Scenario.sockB;
                  JoinCapsule Scenario.sockA "C101"
                    (Returned (Some Scenario.C101))] init).1 in
  capsuleRooms
    (leave_capsule Scenario.sockB "C101"
       (join_capsule Scenario.sockB "C101" (Returned (Some Scenario.C101))
          st).1).1 =
  capsuleRooms st.
Proof.
  intros st.
  apply (join_then_leave_restores Scenario.sockB "C101" Scenario.C101 st).
  - reflexivity.
  - apply run_no_empty_room.
  - vm_compute. discriminate.
Defined.

Lemma activeOf_elem st (users : gset string) e :
  e ∈ activeOf st users ↔ ∃ v, v ∈ users ∧ activeUsers st !! v = Some e.
Proof.
  unfold activeOf. rewrite list_elem_of_omap.
  split; intros (v & Hv & He); exists v; by rewrite elem_of_elements in *.
Qed.

(** X9. A successful [join_capsule] sends the joiner exactly one
    [capsule_joined] event, whose list is what [getActiveUsersInCapsule]
    answers right after the join; the other connections in the room receive
    [user_joined_capsule] once, everybody else nothing.  The list has the
    joiner's own entry if the joiner is registered, and only entries of
    members of the room. *)
Theorem join_capsule_snapshot socket c cap st (t : string) :
  hasAccess cap (userId socket) = true →
  let r := join_capsule socket c (Returned (Some cap)) st in
  received t r.2 =
  (if decide (t = id socket)
   then [capsule_joined c (getActiveUsersInCapsule c r.1)]
   else if decide (t ∈ SocketIO.members (roomName c) (io st))
        then [user_joined_capsule (userId socket) (user socket) c]
        else [])
  ∧ (∀ e, activeUsers st !! userId socket = Some e →
          e ∈ getActiveUsersInCapsule c r.1)
  ∧ (∀ e, e ∈ getActiveUsersInCapsule c r.1 →
          ∃ v, v ∈ {[userId socket]} ∪ roomMembers c st
               ∧ activeUsers st !! v = Some e).
Proof.
  intros Hacc r.
  assert (Hq : getActiveUsersInCapsule c r.1 =
               activeOf st ({[userId socket]} ∪ roomMembers c st)).
  { subst r. rewrite join_capsule_granted by done.
    unfold getActiveUsersInCapsule, track, roomMembers.
    cbn [capsuleRooms]. by rewrite lookup_insert_eq. }
  split; [|split].
  - rewrite Hq. subst r. unfold join_capsule. rewrite Hacc. cbn [snd].
    rewrite !received_app, received_emit, received_to_emit.
    unfold track at 1 2 3. cbn [capsuleRooms io].
    rewrite lookup_insert_eq.
    assert (Hmem :
      t ∈ SocketIO.members (roomName c)
            (SocketIO.join (id socket) (roomName c) (io st))
      ↔ t = id socket ∨ t ∈ SocketIO.members (roomName c) (io st)).
    { rewrite members_join, decide_True by done.
      by rewrite elem_of_union, elem_of_singleton. }
    change (received t [ConsoleLog ?l]) with (@nil Event).
    rewrite app_nil_r. unfold roomMembers, activeOf. cbn [activeUsers default].
    destruct (decide (t = id socket)) as [->|Hne].
    + rewrite decide_True by done. rewrite decide_False; [done | tauto].
    + rewrite (decide_False (P := id socket = t)) by done. simpl.
      destruct (decide (t ∈ SocketIO.members (roomName c) (io st)))
        as [Hin|Hnin].
      * rewrite decide_True; [done | tauto].
      * rewrite decide_False; [done | tauto].
  - intros e He. rewrite Hq. apply activeOf_elem. exists (userId socket).
    split; [|done]. apply elem_of_union_l, elem_of_singleton. reflexivity.
  - intros e. rewrite Hq. apply activeOf_elem.
Qed.

Lemma join_capsule_snapshot_witness :
  let st := (run [Connect 0 Scenario.sockA; Connect 1 Scenario.sockB;
                  JoinCapsule Scenario.sockA "C101"
                    (Returned (Some Scenario.C101))] init).1 in
  let r := join_capsule Scenario.sockB "C101" (Returned (Some Scenario.C101))
             st in
  received "sA" r.2 =
  (if decide ("sA" = "sB")
   then [capsule_joined "C101" (getActiveUsersInCapsule "C101" r.1)]
   else if decide ("sA" ∈ SocketIO.members (roomName "C101") (io st))
        then [user_joined_capsule "B" Scenario.userB "C101"]
        else [])
  ∧ (∀ e, activeUsers st !! "B" = Some e →
          e ∈ getActiveUsersInCapsule "C101" r.1)
  ∧ (∀ e, e ∈ getActiveUsersInCapsule "C101" r.1 →
          ∃ v, v ∈ {[ "B" ]} ∪ roomMembers "C101" st
               ∧ activeUsers st !! v = Some e).
Proof.
  intros st.
  apply (join_capsule_snapshot Scenario.sockB "C101" Scenario.C101 st "sA").
  reflexivity.
Defined.

(** X10. [getActiveUsersInCapsule] lists exactly the entries of the members
    of the room that have an entry in [activeUsers]: a member without one
    is left out, nobody else is listed, and there are at most as many
    entries as members. *)
Theorem getActiveUsersInCapsule_online_members c st e :
  (e ∈ getActiveUsersInCapsule c st
   ↔ ∃ v, v ∈ roomMembers c st ∧ activeUsers st !! v = Some e)
  ∧ (length (getActiveUsersInCapsule c st) ≤ size (roomMembers c st))%nat.
Proof.
  unfold getActiveUsersInCapsule, roomMembers.
  destruct (capsuleRooms st !! roomName c) as [users|]; simpl.
  - split; [apply activeOf_elem |]. unfold activeOf.
    change (size users) with (length (elements users)).
    induction (elements users) as [|v l IH]; [done |].
    cbn [omap list_omap]. destruct (activeUsers st !! v); simpl in *; lia.
  - split; [|done]. split; [by intros ?%elem_of_nil |].
    intros (v & Hv & _). by apply elem_of_empty in Hv.
Qed.

Lemma join_each_outputs socket (caps : list Capsule) acc o :
  o ∈ (foldl (join_each socket) acc caps).2 →
  o ∈ acc.2
  ∨ ∃ t c, o = Emit t (user_joined_capsule (userId socket) (user socket) c).
Proof.
  revert acc. induction caps as [|cap caps IH]; intros acc; [by left |].
  intros [Hin|Hin]%IH; [|by right].
  unfold join_each in Hin. cbn [snd] in Hin.
  apply elem_of_app in Hin as [Hin|Hin]; [by left | right].
  unfold SocketIO.to_emit, SocketIO.send in Hin.
  apply list_elem_of_fmap in Hin as (t & -> & _). by eexists _, _.
Qed.

(** X11. An [error] event of [join_capsule] or [join_capsules] goes to the
    requesting socket only, and whenever one is sent the state is left as it
    was: a refused or failed join changes nothing and tells nobody else. *)
Theorem join_errors_are_private socket c found found' st (t msg : string) :
  (Emit t (error msg) ∈ (join_capsule socket c found st).2 →
   t = id socket ∧ (join_capsule socket c found st).1 = st)
  ∧ (Emit t (error msg) ∈ (join_capsules socket found' st).2 →
     t = id socket ∧ (join_capsules socket found' st).1 = st).
Proof.
  split.
  - unfold join_capsule. destruct found as [|[cap|]].
    + intros [Hin|Hin]%elem_of_cons; [discriminate Hin |].
      apply list_elem_of_singleton in Hin. by injection Hin as -> _.
    + destruct (hasAccess cap (userId socket)).
      * cbn [snd]. rewrite !elem_of_app. intros [Hin|[Hin|Hin]].
        -- apply list_elem_of_singleton in Hin. discriminate Hin.
        -- unfold SocketIO.to_emit, SocketIO.send in Hin.
           apply list_elem_of_fmap in Hin as (? & Hin & _). discriminate Hin.
        -- apply list_elem_of_singleton in Hin. discriminate Hin.
      * intros Hin. apply list_elem_of_singleton in Hin.
        by injection Hin as -> _.
    + intros Hin. apply list_elem_of_singleton in Hin.
      by injection Hin as -> _.
  - unfold join_capsules. destruct found' as [|caps].
    + intros [Hin|Hin]%elem_of_cons; [discriminate Hin |].
      apply list_elem_of_singleton in Hin. by injection Hin as -> _.
    + cbn [snd]. intros [Hin|Hin]%elem_of_app.
      * apply join_each_outputs in Hin as [Hin|(? & ? & Hin)];
          [by apply elem_of_nil in Hin | discriminate Hin].
      * apply list_elem_of_singleton in Hin. discriminate Hin.
Qed.



Lemma track_all_presence socket (caps : list Capsule) st :
  let st' :=
    foldl (λ st cap, track socket (roomName (capsule_id cap)) st) st caps in
  activeUsers st' = activeUsers st
  ∧ SocketIO.sockets (io st') = SocketIO.sockets (io st).
Proof.
  revert st. induction caps as [|cap caps IH]; intros st; [done |].
  simpl. destruct (IH (track socket (roomName (capsule_id cap)) st))
    as [-> ->]. done.
Qed.

Lemma room_action_activeUsers a st :
  room_action a = true →
  activeUsers (step a st).1 = activeUsers st
  ∧ SocketIO.sockets (io (step a st).1) = SocketIO.sockets (io st).
Proof.
  intros Ha.
  destruct a as [now s | s found | s c found | s c | s c m | s c m
                | now s c m e p | s c m | s reason | now];
    try discriminate Ha; try (simpl; done).
  - unfold step, join_capsules. destruct found as [|caps]; [done |].
    cbn [fst]. rewrite join_each_state. apply track_all_presence.
  - unfold step, join_capsule. destruct found as [|[cap|]]; try done.
    by destruct (hasAccess cap (userId s)).
Qed.

Lemma run_room_actions_activeUsers acts st :
  forallb room_action acts = true →
  activeUsers (run acts st).1 = activeUsers st.
Proof.
  induction acts as [|a acts IH] using rev_ind; [done |].
  rewrite forallb_app, andb_true_iff. simpl. rewrite andb_true_r.
  intros [Hacts Ha]. rewrite run_snoc. cbn [fst].
  destruct (room_action_activeUsers a (run acts st).1 Ha) as [-> _].
  by apply IH.
Qed.

(** X13. Room events never change presence: joining, leaving, typing,
    reacting and viewing leave [activeUsers], hence [isUserOnline] and
    [getActiveUsers], and the set of connected sockets as they were. *)
Theorem room_actions_keep_presence a st :
  room_action a = true →
  activeUsers (step a st).1 = activeUsers st
  ∧ SocketIO.sockets (io (step a st).1) = SocketIO.sockets (io st)
  ∧ getActiveUsers (step a st).1 = getActiveUsers st
  ∧ ∀ u, isUserOnline u (step a st).1 = isUserOnline u st.
Proof.
  intros Ha. destruct (room_action_activeUsers a st Ha) as [Hact Hio].
  split; [done | split; [done |]].
  unfold getActiveUsers, isUserOnline. by rewrite Hact.
Qed.

Lemma room_actions_keep_presence_witness :
  let a := LeaveCapsule Scenario.sockA "C101" in
  activeUsers (step a Scenario.joined.1).1 = activeUsers Scenario.joined.1
  ∧ SocketIO.sockets (io (step a Scenario.joined.1).1) =
    SocketIO.sockets (io Scenario.joined.1)
  ∧ getActiveUsers (step a Scenario.joined.1).1 =
    getActiveUsers Scenario.joined.1
  ∧ ∀ u, isUserOnline u (step a Scenario.joined.1).1 =
         isUserOnline u Scenario.joined.1.
Proof.
  intros a. apply (room_actions_keep_presence a Scenario.joined.1).
  reflexivity.
Defined.

(** ** The sweep, again *)

(** X14. The threshold of the sweep is strict and counts from the
    connection, not from the last activity: a user who connected at [now]
    and then sent any number of room events is still registered after a
    sweep at [now'] exactly when [now' - now] is at most one hour. *)
Theorem sweep_threshold now now' socket acts st :
  forallb room_action acts = true →
  isUserOnline (userId socket)
    (sweep now' (run acts (connect now socket st).1).1) =
  bool_decide (now' - now ≤ 3600000)%Z.
Proof.
  intros Hacts. unfold isUserOnline, sweep. cbn [activeUsers].
  rewrite (run_room_actions_activeUsers _ _ Hacts).
  unfold connect, on_connection. cbn [fst activeUsers].
  rewrite map_lookup_filter, lookup_insert_eq. simpl.
  unfold staleness. destruct (decide (now' - now ≤ 3600000)%Z) as [H|H].
  - rewrite option_guard_True by lia. rewrite !bool_decide_eq_true_2; eauto.
  - rewrite option_guard_False by lia. rewrite (bool_decide_eq_false_2 _ H).
    apply bool_decide_eq_false_2. by intros [? ?].
Qed.

(** B connects at 1, joins C101 and types at once; an hour and a
    millisecond after the connection the sweep evicts B. *)
Lemma sweep_threshold_witness :
  isUserOnline "B"
    (sweep 3600002
       (run [JoinCapsule Scenario.sockB "C101" (Returned (Some Scenario.C101));
             TypingStart Scenario.sockB "C101" "M1"]
          (connect 1 Scenario.sockB init).1).1) =
  bool_decide (3600002 - 1 ≤ 3600000)%Z.
Proof.
  apply (sweep_threshold 1 3600002 Scenario.sockB
           [JoinCapsule Scenario.sockB "C101" (Returned (Some Scenario.C101));
            TypingStart Scenario.sockB "C101" "M1"] init).
  reflexivity.
Defined.

(** X15. Sweeps compose: a sweep after an earlier sweep leaves what the
    later sweep alone would leave, so sweeping twice at the same time is
    sweeping once, and whoever survives a sweep survived every earlier
    one. *)
Theorem sweep_after_sweep t1 t2 st :
  (t1 ≤ t2)%Z →
  sweep t2 (sweep t1 st) = sweep t2 st
  ∧ ∀ u, isUserOnline u (sweep t2 st) = true →
         isUserOnline u (sweep t1 st) = true.
Proof.
  intros Ht. split.
  - unfold sweep. cbn [activeUsers capsuleRooms io]. f_equal.
    apply map_eq. intros u. rewrite !map_lookup_filter.
    destruct (activeUsers st !! u) as [e|]; simpl; [|done].
    destruct (decide (t1 - joinedAt e > staleness)%Z) as [H1|H1].
    + rewrite (option_guard_False (¬ (t1 - _ > _)%Z)) by tauto. simpl.
      rewrite option_guard_False; [done |]. simpl. lia.
    + by rewrite (option_guard_True (¬ (t1 - _ > _)%Z)) by done.
  - intros u. unfold isUserOnline, sweep. cbn [activeUsers].
    rewrite !bool_decide_eq_true, !map_lookup_filter.
    destruct (activeUsers st !! u) as [e|]; simpl; [|done].
    destruct (decide (t2 - joinedAt e > staleness)%Z) as [H2|H2].
    + rewrite option_guard_False by (simpl; tauto). by intros [? ?].
    + intros _. rewrite option_guard_True by (simpl; lia). by eexists.
Qed.

Lemma sweep_after_sweep_witness :
  sweep 3600001 (sweep 300000 Scenario.joined.1) =
  sweep 3600001 Scenario.joined.1
  ∧ ∀ u, isUserOnline u (sweep 3600001 Scenario.joined.1) = true →
         isUserOnline u (sweep 300000 Scenario.joined.1) = true.
Proof.
  apply (sweep_after_sweep 300000 3600001 Scenario.joined.1). lia.
Defined.

(** ** Transient broadcasts *)

(** X16. [live_reaction] and [viewing_memory] change no state and reach
    every connection in the named room other than the sender's exactly once;
    neither checks that the sender joined the room or may see the capsule. *)
Theorem transient_broadcasts now socket c m emoji position st (t : string) :
  (on_live_reaction now socket c m emoji position st).1 = st
  ∧ received t (on_live_reaction now socket c m emoji position st).2 =
    (if decide (t ∈ SocketIO.members (roomName c) (io st) ∧ t ≠ id socket)
     then [live_reaction (userId socket) (user socket) c m emoji position now]
     else [])
  ∧ (viewing_memory socket c m st).1 = st
  ∧ received t (viewing_memory socket c m st).2 =
    (if decide (t ∈ SocketIO.members (roomName c) (io st) ∧ t ≠ id socket)
     then [user_viewing_memory (userId socket) (user socket) c m]
     else []).
Proof.
  repeat split; apply received_to_emit.
Qed.

(** A socket that never joined C101 reacts in it: A and B both see it. *)
Example outsider_reacts :
  let sockC := mkSocket "sC" "C" (mkUser "C" "Cy" "") in
  let st := (connect 2 sockC Scenario.joined.1).1 in
  received "sA" (on_live_reaction 3 sockC "C101" "M1" "heart" "0,0" st).2
  = [live_reaction "C" (mkUser "C" "Cy" "") "C101" "M1" "heart" "0,0" 3]
  ∧ received "sB" (on_live_reaction 3 sockC "C101" "M1" "heart" "0,0" st).2
    = [live_reaction "C" (mkUser "C" "Cy" "") "C101" "M1" "heart" "0,0" 3].
Proof. split; reflexivity. Qed.

(** ** The handshake, again *)

(** X17. With a token that verifies, the handshake depends on the user
    lookup: a user that is found is registered under the [_id] of the
    document found, with this socket and this time, and the other
    connections are told; a user that is not found is refused with "User not
    found", a lookup that throws with "Authentication error", and in both
    cases the state stays as it was. *)
Theorem handshake_after_verification
  jwt_verify User_findById now sid tok uid st (t : string) :
  tok ≠ "" →
  jwt_verify tok = Some uid →
  let r := handshake jwt_verify User_findById now sid (Some tok) st in
  match User_findById uid with
  | Returned (Some u) =>
      activeUsers r.1 !! user_id u =
      Some {| socketId := sid; au_user := u; joinedAt := now |}
      ∧ sid ∈ SocketIO.sockets (io r.1)
      ∧ received t r.2 =
        (if decide (t ∈ SocketIO.sockets (io st) ∧ t ≠ sid)
         then [user_online (user_id u) u] else [])
  | Returned None => r = (st, [ConnectError sid "User not found"])
  | Threw => r = (st, [ConnectError sid "Authentication error"])
  end.
Proof.
  intros Htok Hv r. subst r. unfold handshake, authenticate.
  destruct tok as [|a tok]; [done |]. rewrite Hv.
  destruct (User_findById uid) as [|[u|]]; [done | | done].
  unfold connect, on_connection. cbn [fst snd activeUsers io id userId user].
  split; [by rewrite lookup_insert_eq |]. split.
  - unfold SocketIO.connect. cbn [SocketIO.sockets].
    apply elem_of_union_l, elem_of_singleton. reflexivity.
  - change (received t (ConsoleLog ?l :: ?outs)) with (received t outs).
    unfold SocketIO.broadcast_emit. rewrite received_send.
    unfold SocketIO.connect. cbn [SocketIO.sockets].
    destruct (decide (t ∈ SocketIO.sockets (io st) ∧ t ≠ sid)) as [[? ?]|Hn].
    + rewrite decide_True; [done |].
      rewrite elem_of_difference, elem_of_union, elem_of_singleton. tauto.
    + rewrite decide_False; [done |].
      rewrite elem_of_difference, elem_of_union, elem_of_singleton. tauto.
Qed.

(** A token that verifies for a user who was deleted since. *)
Lemma handshake_after_verification_witness :
  handshake (λ _, Some "gone") (λ _, Returned None) 5 "sX" (Some "tok")
    Scenario.joined.1 =
  (Scenario.joined.1, [ConnectError "sX" "User not found"]).
Proof.
  apply (handshake_after_verification (λ _, Some "gone") (λ _, Returned None)
           5 "sX" "tok" "gone" Scenario.joined.1 "sA").
  - discriminate.
  - reflexivity.
Defined.

(** ** The pin route, again *)

Lemma isAdmin_true cap uid :
  isAdmin cap uid = true
  ↔ ∃ k, k ∈ contributors cap ∧ c_user k = uid ∧ c_role k = admin.
Proof.
  unfold isAdmin. rewrite existsb_exists. split.
  - intros (k & Hk%list_elem_of_In & [Hu Hr]%andb_true_iff).
    exists k. by rewrite !bool_decide_eq_true in *.
  - intros (k & Hk%list_elem_of_In & Hu & Hr). exists k. split; [done |].
    by rewrite andb_true_iff, !bool_decide_eq_true.
Qed.

(** X18. The pin route broadcasts only what it has saved: every event it
    emits is the [memory_pinned] of a memory that was found, toggled and
    written, goes to a connection in the room of the memory's capsule, and
    comes with the 200 response; with any other response nothing is saved
    and nothing is emitted. *)
Theorem pin_broadcasts_only_saved
  (MemoryItem_findById : string → Outcome (option MemoryItem))
  (Capsule_findById : string → Outcome (option Capsule))
  (memory_save : MemoryItem → Outcome unit)
  req_io req_user param_id :
  let r := pin MemoryItem_findById Capsule_findById memory_save
             req_io req_user param_id in
  (∀ t ev, Emit t ev ∈ r.2 →
     ∃ memory,
       MemoryItem_findById param_id = Returned (Some memory)
       ∧ r.1.2 = Some {| memory_id := memory_id memory;
                         capsule := capsule memory;
                         isPinned := negb (isPinned memory) |}
       ∧ status r.1.1 = 200
       ∧ ev = memory_pinned (memory_id memory) (negb (isPinned memory))
                req_user
       ∧ t ∈ SocketIO.members (roomName (capsule memory)) req_io)
  ∧ (status r.1.1 ≠ 200 → r.1.2 = None ∧ ∀ t ev, Emit t ev ∉ r.2).
Proof.
  intros r. subst r. unfold pin, failed_to_pin.
  assert (Hlog : ∀ t ev l, Emit t ev ∉ [ConsoleLog l]).
  { intros t ev l Hin. apply list_elem_of_singleton in Hin. discriminate. }
  assert (Hnil : ∀ t ev, Emit t ev ∉ @nil Output).
  { intros t ev Hin. by apply elem_of_nil in Hin. }
  assert (Hfail : ∀ (resp : Response) (outs : list Output),
            (∀ t ev, Emit t ev ∉ outs) →
            (∀ t ev, Emit t ev ∈ (resp, @None MemoryItem, outs).2 →
               ∃ memory,
                 MemoryItem_findById param_id = Returned (Some memory)
                 ∧ (resp, @None MemoryItem, outs).1.2 =
                   Some {| memory_id := memory_id memory;
                           capsule := capsule memory;
                           isPinned := negb (isPinned memory) |}
                 ∧ status (resp, @None MemoryItem, outs).1.1 = 200
                 ∧ ev = memory_pinned (memory_id memory)
                          (negb (isPinned memory)) req_user
                 ∧ t ∈ SocketIO.members (roomName (capsule memory)) req_io)
            ∧ (status (resp, @None MemoryItem, outs).1.1 ≠ 200 →
               (resp, @None MemoryItem, outs).1.2 = None
               ∧ ∀ t ev, Emit t ev ∉ (resp, @None MemoryItem, outs).2)).
  { intros resp outs Hno. split; [by intros t ev ?%Hno | done]. }
  destruct (MemoryItem_findById param_id) as [|[memory|]] eqn:Hm;
    [apply Hfail; intros t ev; apply Hlog | | by apply Hfail].
  destruct (Capsule_findById (capsule memory)) as [|[cap|]];
    [apply Hfail; intros t ev; apply Hlog | |
     apply Hfail; intros t ev; apply Hlog].
  destruct (negb _ && negb _); [by apply Hfail |].
  destruct (memory_save _) as [|[]];
    [apply Hfail; intros t ev; apply Hlog |].
  cbn [fst snd status isPinned memory_id capsule]. split; [|done].
  intros t ev Hin. exists memory. split; [done |]. split; [done |].
  split; [done |]. unfold SocketIO.io_to_emit, SocketIO.send in Hin.
  apply list_elem_of_fmap in Hin as (t' & Heq & Hin). injection Heq as -> ->.
  split; [done |]. by apply elem_of_elements in Hin.
Qed.

(** X19. Once the memory is found, the pin route answers by the capsule:
    500 when the capsule lookup throws or finds nothing, 403 exactly when
    the user is neither the owner nor a contributor with the admin role, and
    in these cases it saves and emits nothing. *)
Theorem pin_needs_owner_or_admin
  (MemoryItem_findById : string → Outcome (option MemoryItem))
  (Capsule_findById : string → Outcome (option Capsule))
  (memory_save : MemoryItem → Outcome unit)
  req_io req_user param_id memory :
  MemoryItem_findById param_id = Returned (Some memory) →
  let r := pin MemoryItem_findById Capsule_findById memory_save
             req_io req_user param_id in
  match Capsule_findById (capsule memory) with
  | Returned (Some cap) =>
      (status r.1.1 = 403
       ↔ owner cap ≠ user_id req_user
         ∧ ∀ k, k ∈ contributors cap → c_user k = user_id req_user →
                c_role k ≠ admin)
      ∧ (status r.1.1 = 403 → r.1.2 = None ∧ r.2 = [])
  | _ => status r.1.1 = 500 ∧ r.1.2 = None
         ∧ r.2 = [ConsoleLog (log_error "Pin memory error:")]
  end.
Proof.
  intros Hm r. subst r. unfold pin, failed_to_pin. rewrite Hm.
  destruct (Capsule_findById (capsule memory)) as [|[cap|]]; [done | | done].
  destruct (decide (owner cap = user_id req_user)) as [Ho|Ho].
  - rewrite bool_decide_eq_true_2 by done. simpl.
    destruct (memory_save _) as [|[]]; simpl; (split; [|done]);
      (split; [done | tauto]).
  - rewrite bool_decide_eq_false_2 by done. simpl.
    destruct (isAdmin cap (user_id req_user)) eqn:Ha; simpl.
    + apply isAdmin_true in Ha as (k & Hk & Hu & Hr).
      destruct (memory_save _) as [|[]]; simpl; (split; [|done]);
        (split; [done |]); intros [_ H]; by destruct (H k Hk Hu).
    + split; [|done]. split; [|done]. intros _. split; [done |].
      intros k Hk Hu Hr. apply not_true_iff_false in Ha. apply Ha.
      apply isAdmin_true. by exists k.
Qed.

(** B, a plain contributor of C101, may not pin. *)
Lemma pin_needs_owner_or_admin_witness :
  let r := pin (λ _, Returned (Some Scenario.M1))
             (λ _, Returned (Some Scenario.C101)) (λ _, Returned ())
             (io Scenario.joined.1) Scenario.userB "M1" in
  (status r.1.1 = 403
   ↔ owner Scenario.C101 ≠ "B"
     ∧ ∀ k, k ∈ contributors Scenario.C101 → c_user k = "B" →
            c_role k ≠ admin)
  ∧ (status r.1.1 = 403 → r.1.2 = None ∧ r.2 = []).
Proof.
  apply (pin_needs_owner_or_admin (λ _, Returned (Some Scenario.M1))
           (λ _, Returned (Some Scenario.C101)) (λ _, Returned ())
           (io Scenario.joined.1) Scenario.userB "M1" Scenario.M1).
  reflexivity.
Defined.

(** X20. Pinning is a toggle: when the store accepts the writes, pinning
    the document that a first pin saved writes the original document back,
    and the second response reports the original flag. *)
Theorem pin_twice_restores
  (Capsule_findById : string → Outcome (option Capsule))
  (memory_save : MemoryItem → Outcome unit)
  req_io req_user param_id memory r1 m1 o1 :
  (∀ m, memory_save m = Returned ()) →
  pin (λ _, Returned (Some memory)) Capsule_findById memory_save
    req_io req_user param_id = (r1, Some m1, o1) →
  let r2 := pin (λ _, Returned (Some m1)) Capsule_findById memory_save
              req_io req_user param_id in
  r2.1.2 = Some memory
  ∧ data_isPinned r2.1.1 = Some (isPinned memory)
  ∧ isPinned m1 = negb (isPinned memory).
Proof.
  intros Hs Hp r2. subst r2. unfold pin, failed_to_pin in *.
  destruct (Capsule_findById (capsule memory)) as [|[cap|]] eqn:Hc;
    [discriminate Hp | | discriminate Hp].
  destruct (negb _ && negb _) eqn:Hrole; [discriminate Hp |].
  rewrite Hs in Hp. injection Hp as <- <- <-.
  cbn [capsule memory_id isPinned]. rewrite Hc, Hrole, Hs.
  cbn [fst snd data_isPinned isPinned]. rewrite negb_involutive.
  by destruct memory.
Qed.

Lemma pin_twice_restores_witness :
  let r2 := pin (λ _, Returned (Some (mkMemory "M1" "C101" true)))
              (λ _, Returned (Some Scenario.C101)) (λ _, Returned ())
              (io Scenario.joined.1) Scenario.userA "M1" in
  r2.1.2 = Some Scenario.M1
  ∧ data_isPinned r2.1.1 = Some (isPinned Scenario.M1)
  ∧ isPinned (mkMemory "M1" "C101" true) = negb (isPinned Scenario.M1).
Proof.
  apply (pin_twice_restores (λ _, Returned (Some Scenario.C101))
           (λ _, Returned ()) (io Scenario.joined.1) Scenario.userA "M1"
           Scenario.M1
           (mkResponse 200 true "Memory pinned" (Some true))
           (mkMemory "M1" "C101" true)
           (SocketIO.io_to_emit (roomName "C101")
              (memory_pinned "M1" true Scenario.userA)
              (io Scenario.joined.1))).
  - intros m. reflexivity.
  - reflexivity.
Defined.

(** X21. Whoever may pin may join the room: a user for whom the pin route
    answers 200 passes the access check of [join_capsule] for the memory's
    capsule. *)
Theorem pin_implies_room_access
  (MemoryItem_findById : string → Outcome (option MemoryItem))
  (Capsule_findById : string → Outcome (option Capsule))
  (memory_save : MemoryItem → Outcome unit)
  req_io req_user param_id :
  status (pin MemoryItem_findById Capsule_findById memory_save
            req_io req_user param_id).1.1 = 200 →
  ∃ memory cap,
    MemoryItem_findById param_id = Returned (Some memory)
    ∧ Capsule_findById (capsule memory) = Returned (Some cap)
    ∧ hasAccess cap (user_id req_user) = true.
Proof.
  unfold pin, failed_to_pin.
  destruct (MemoryItem_findById param_id) as [|[memory|]];
    try (intros H; simpl in H; exfalso; lia).
  destruct (Capsule_findById (capsule memory)) as [|[cap|]] eqn:Hc;
    try (intros H; simpl in H; exfalso; lia).
  destruct (negb _ && negb _) eqn:Hrole;
    [intros H; simpl in H; exfalso; lia |].
  destruct (memory_save _) as [|[]];
    [intros H; simpl in H; exfalso; lia |]. intros _.
  exists memory, cap. split; [done | split; [done |]].
  apply hasAccess_true. apply andb_false_iff in Hrole as [Ho|Ha].
  - left. by apply negb_false_iff, bool_decide_eq_true in Ho.
  - right. apply negb_false_iff, isAdmin_true in Ha as (k & Hk & Hu & _).
    by exists k.
Qed.

Lemma pin_implies_room_access_witness :
  ∃ memory cap,
    (λ _ : string, Returned (Some Scenario.M1)) "M1" = Returned (Some memory)
    ∧ (λ _ : string, Returned (Some Scenario.C101)) (capsule memory)
      = Returned (Some cap)
    ∧ hasAccess cap (user_id Scenario.userA) = true.
Proof.
  apply (pin_implies_room_access (λ _, Returned (Some Scenario.M1))
           (λ _, Returned (Some Scenario.C101)) (λ _, Returned ())
           (io Scenario.joined.1) Scenario.userA "M1").
  reflexivity.
Defined.

(** * The HTTP middleware *)

(** ** The bearer token *)

Lemma split_nonempty sep s : split sep s ≠ [].
Proof.
  destruct s as [|ch s]; simpl; [done |].
  destruct (Ascii.eqb ch sep); [done |]. by destruct (split sep s).
Qed.

Lemma split_no_sep sep s : occurs sep s = false → split sep s = [s].
Proof.
  induction s as [|ch s IH]; simpl; [done |].
  intros [Hch Hs]%orb_false_iff. by rewrite Hch, (IH Hs).
Qed.

Lemma split_first sep w rest :
  occurs sep w = false →
  split sep (String.append w (String sep rest)) = w :: split sep rest.
Proof.
  induction w as [|ch w IH]; simpl.
  - intros _. by rewrite Ascii.eqb_refl.
  - intros [Hch Hw]%orb_false_iff. by rewrite Hch, (IH Hw).
Qed.

(** X22. The token of a request is the second space-separated piece of the
    [Authorization] header, whatever the first piece is: from
    "<scheme> <token>" the middleware takes the token back, for any scheme
    word; a header without a space carries no token, and
    [authenticateToken] answers 401 "Access token required" to it without
    verifying anything. *)
Theorem bearer_token_extraction
  (jwt_verify : string → JwtOutcome)
  (User_findById : string → Outcome (option User))
  (user_save : User → Z → Outcome unit) now (scheme tok h : string) :
  (occurs space scheme = false → occurs space tok = false →
   bearer_token (Some (String.append scheme (String space tok))) = Some tok)
  ∧ (occurs space h = false →
     authenticateToken jwt_verify User_findById user_save now (Some h) =
     (AuthRespond 401 "Access token required", [])).
Proof.
  split.
  - intros Hs Ht. unfold bearer_token.
    rewrite split_first, split_no_sep by done.
    by destruct scheme.
  - intros Hh. unfold authenticateToken, bearer_token.
    rewrite split_no_sep by done. by destruct h.
Qed.

Lemma bearer_token_extraction_witness :
  bearer_token (Some "Bearer abc.def.ghi") = Some "abc.def.ghi"
  ∧ authenticateToken (λ _, Verified "A")
      (λ _, Returned (Some Scenario.userA)) (λ _ _, Returned ()) 5
      (Some "abc.def.ghi") =
    (AuthRespond 401 "Access token required", []).
Proof.
  destruct (bearer_token_extraction (λ _, Verified "A")
              (λ _, Returned (Some Scenario.userA)) (λ _ _, Returned ()) 5
              "Bearer" "abc.def.ghi" "abc.def.ghi") as [H1 H2].
  split; [apply H1 | apply H2]; reflexivity.
Defined.

(** X23. [authenticateToken] lets a request through only with a token
    that verifies for a user who is found and whose [lastActive] could be
    saved: the user attached to the request is the one found, stamped with
    the time of the request, and nothing is logged. *)
Theorem authenticateToken_passes_only_verified
  (jwt_verify : string → JwtOutcome)
  (User_findById : string → Outcome (option User))
  (user_save : User → Z → Outcome unit) now authHeader u lastActive outs :
  authenticateToken jwt_verify User_findById user_save now authHeader =
  (AuthNext u lastActive, outs) →
  lastActive = now ∧ outs = []
  ∧ ∃ tok uid,
      bearer_token authHeader = Some tok ∧ tok ≠ ""
      ∧ jwt_verify tok = Verified uid
      ∧ User_findById uid = Returned (Some u)
      ∧ user_save u now = Returned ().
Proof.
  unfold authenticateToken, authentication_error.
  destruct (bearer_token authHeader) as [tok|]; [|done].
  destruct tok as [|ch tok]; [done |].
  destruct (jwt_verify (String ch tok)) as [uid| | |] eqn:Hv; try done.
  destruct (User_findById uid) as [|[u'|]] eqn:Hf; try done.
  destruct (user_save u' now) as [|[]] eqn:Hs; [done |].
  intros [= -> <- <-]. split; [done | split; [done |]].
  by exists (String ch tok), uid.
Qed.

Lemma authenticateToken_passes_only_verified_witness :
  5%Z = 5%Z ∧ @nil Output = []
  ∧ ∃ tok uid,
      bearer_token (Some "Bearer tokA") = Some tok ∧ tok ≠ ""
      ∧ (λ _ : string, Verified "A") tok = Verified uid
      ∧ (λ _ : string, Returned (Some Scenario.userA)) uid
        = Returned (Some Scenario.userA)
      ∧ (λ (_ : User) (_ : Z), Returned ()) Scenario.userA 5%Z = Returned ().
Proof.
  apply (authenticateToken_passes_only_verified (λ _, Verified "A")
           (λ _, Returned (Some Scenario.userA)) (λ _ _, Returned ()) 5
           (Some "Bearer tokA") Scenario.userA 5 []).
  reflexivity.
Defined.

(** X24. The two HTTP authentications agree on who the user is: whenever
    [authenticateToken] lets a request through, [optionalAuth] attaches the
    same user to it; and whenever [optionalAuth] attaches a user,
    [authenticateToken] never answers 401: it lets the request through with
    that user, or answers 500 because the user could not be saved. *)
Theorem optionalAuth_agrees
  (jwt_verify : string → JwtOutcome)
  (User_findById : string → Outcome (option User))
  (user_save : User → Z → Outcome unit) now authHeader u :
  (∀ lastActive outs,
     authenticateToken jwt_verify User_findById user_save now authHeader =
     (AuthNext u lastActive, outs) →
     optionalAuth jwt_verify User_findById authHeader = Some u)
  ∧ (optionalAuth jwt_verify User_findById authHeader = Some u →
     authenticateToken jwt_verify User_findById user_save now authHeader =
     match user_save u now with
     | Returned _ => (AuthNext u now, [])
     | Threw => (AuthRespond 500 "Authentication error",
                 [ConsoleLog (log_error "Auth middleware error:")])
     end).
Proof.
  unfold authenticateToken, optionalAuth, authentication_error.
  destruct (bearer_token authHeader) as [tok|]; [|done].
  destruct tok as [|ch tok]; [done |].
  destruct (jwt_verify (String ch tok)) as [uid| | |]; try done.
  destruct (User_findById uid) as [|[u'|]]; try done.
  split.
  - intros la outs. destruct (user_save u' now) as [|[]]; [done |].
    by intros [= -> _ _].
  - intros [= ->]. by destruct (user_save u now) as [|[]].
Qed.

(** ** Capsule permissions *)

Lemma find_contributor_Some uid (l : list Contributor) entry :
  List.find (λ c, bool_decide (c_user c = uid)) l = Some entry →
  entry ∈ l ∧ c_user entry = uid.
Proof.
  intros H. apply find_some in H as [Hin Hu].
  split; [by apply list_elem_of_In | by apply bool_decide_eq_true in Hu].
Qed.

Lemma find_contributor_None uid (l : list Contributor) :
  List.find (λ c, bool_decide (c_user c = uid)) l = None
  ↔ ∀ k, k ∈ l → c_user k ≠ uid.
Proof.
  split.
  - intros H k Hk%list_elem_of_In Hu.
    pose proof (find_none _ _ H k Hk) as Hf. simpl in Hf.
    by rewrite bool_decide_eq_true_2 in Hf.
  - intros H. destruct (List.find _ l) as [entry|] eqn:Hf; [|done].
    apply find_contributor_Some in Hf as [Hin Hu]. by destruct (H entry Hin).
Qed.

(** With one entry per user, the entry found for a user is the only one. *)
Lemma find_contributor_unique uid (l : list Contributor) entry k :
  NoDup (c_user <$> l) →
  List.find (λ c, bool_decide (c_user c = uid)) l = Some entry →
  k ∈ l → c_user k = uid → k = entry.
Proof.
  induction l as [|x l IH]; intros Hnd Hf Hk Hu; [by apply elem_of_nil in Hk |].
  rewrite fmap_cons in Hnd. apply NoDup_cons in Hnd as [Hx Hnd].
  simpl in Hf. destruct (decide (c_user x = uid)) as [Hxu|Hxu].
  - rewrite bool_decide_eq_true_2 in Hf by done. injection Hf as <-.
    apply elem_of_cons in Hk as [?|Hk]; [done |]. destruct Hx.
    apply list_elem_of_fmap. exists k. split; [congruence | done].
  - rewrite bool_decide_eq_false_2 in Hf by done.
    apply elem_of_cons in Hk as [->|Hk]; [done |]. by apply IH.
Qed.

(** X25. With the lowest requirement, "viewer", [checkCapsulePermission]
    lets through exactly the users that [join_capsule] lets into the
    capsule's room: the owner and the listed contributors. *)
Theorem viewer_permission_is_room_access cap req_user :
  (∃ role oc,
     (checkCapsulePermission role_viewer (Returned (Some cap)) req_user).1 =
     PermNext role oc)
  ↔ hasAccess cap (user_id req_user) = true.
Proof.
  unfold checkCapsulePermission. rewrite hasAccess_true.
  destruct (decide (owner cap = user_id req_user)) as [Ho|Ho].
  - rewrite bool_decide_eq_true_2 by done. split; [by left | by eexists _, _].
  - rewrite bool_decide_eq_false_2 by done.
    destruct (List.find _ (contributors cap)) as [entry|] eqn:Hf.
    + apply find_contributor_Some in Hf as [Hin Hu].
      assert (Nat.ltb (roleHierarchy (role_name (c_role entry)))
                (roleHierarchy role_viewer) = false) as ->.
      { apply Nat.ltb_ge. destruct (c_role entry); simpl; lia. }
      split; [right; by exists entry | by eexists _, _].
    + split; [by intros (? & ? & ?) |].
      intros [?|(k & Hk & Hu)]; [done |].
      by destruct (proj1 (find_contributor_None _ _) Hf k Hk).
Qed.

(** X26. The requirement is monotone: a request that passes
    [checkCapsulePermission] for a role passes it, with the same role and
    capsule attached, for every role that ranks no higher. *)
Theorem permission_monotone required required' found req_user role oc :
  (roleHierarchy required' ≤ roleHierarchy required)%nat →
  (checkCapsulePermission required found req_user).1 = PermNext role oc →
  checkCapsulePermission required' found req_user = (PermNext role oc, []).
Proof.
  intros Hle. unfold checkCapsulePermission.
  destruct found as [|[cap|]]; try done.
  destruct (bool_decide (owner cap = user_id req_user)); [by intros [= <- <-] |].
  destruct (List.find _ (contributors cap)) as [entry|]; [|done].
  destruct (Nat.ltb_spec (roleHierarchy (role_name (c_role entry)))
              (roleHierarchy required)) as [Hlt|Hge]; [done |].
  intros [= <- <-]. simpl.
  destruct (Nat.ltb_spec (roleHierarchy (role_name (c_role entry)))
              (roleHierarchy required')) as [Hlt'|_]; [lia | done].
Qed.

(** An admin of a capsule passes the contributor requirement as well. *)
Lemma permission_monotone_witness :
  let cap := mkCapsule "C7" "A" [mkContributor "B" admin] in
  checkCapsulePermission role_contributor (Returned (Some cap)) Scenario.userB
  = (PermNext role_admin (Some cap), []).
Proof.
  intros cap.
  apply (permission_monotone role_admin role_contributor
           (Returned (Some cap)) Scenario.userB role_admin (Some cap)).
  - simpl. lia.
  - reflexivity.
Defined.

(** X27. The admin requirement of [checkCapsulePermission] and the check
    of the pin route: whoever passes the former is the owner or has an admin
    entry, so may pin; the converse holds when the capsule lists every user
    once, the middleware looking at the first entry of a user only. *)
Theorem admin_permission_and_pin cap req_user :
  ((∃ role oc,
      (checkCapsulePermission role_admin (Returned (Some cap)) req_user).1 =
      PermNext role oc) →
   owner cap = user_id req_user ∨ isAdmin cap (user_id req_user) = true)
  ∧ (NoDup (c_user <$> contributors cap) →
     owner cap = user_id req_user ∨ isAdmin cap (user_id req_user) = true →
     ∃ role oc,
       (checkCapsulePermission role_admin (Returned (Some cap)) req_user).1 =
       PermNext role oc).
Proof.
  unfold checkCapsulePermission.
  destruct (decide (owner cap = user_id req_user)) as [Ho|Ho].
  - rewrite bool_decide_eq_true_2 by done.
    split; [by left | by eexists _, _].
  - rewrite bool_decide_eq_false_2 by done.
    destruct (List.find _ (contributors cap)) as [entry|] eqn:Hf.
    + pose proof (find_contributor_Some _ _ _ Hf) as [Hin Hu]. split.
      * destruct (Nat.ltb_spec (roleHierarchy (role_name (c_role entry)))
                    (roleHierarchy role_admin)) as [Hlt|Hge];
          [by intros (? & ? & ?) |].
        intros _. right. apply isAdmin_true. exists entry.
        split; [done | split; [done |]].
        destruct (c_role entry); simpl in Hge; [done | lia | lia].
      * intros Hnd [?|Ha]; [done |].
        apply isAdmin_true in Ha as (k & Hk & Hku & Hr).
        rewrite <- (find_contributor_unique _ _ _ _ Hnd Hf Hk Hku), Hr.
        simpl. by eexists _, _.
    + split; [by intros (? & ? & ?) |]. intros _ [?|Ha]; [done |].
      apply isAdmin_true in Ha as (k & Hk & Hku & _).
      by destruct (proj1 (find_contributor_None _ _) Hf k Hk).
Qed.

(** A capsule that lists B twice, as viewer and then as admin: the pin
    route accepts B, the admin requirement does not. *)
Example duplicate_entry_first_wins :
  let cap := mkCapsule "C7" "A"
               [mkContributor "B" viewer; mkContributor "B" admin] in
  isAdmin cap "B" = true
  ∧ checkCapsulePermission role_admin (Returned (Some cap)) Scenario.userB =
    (PermRespond 403 "Access denied - admin role required", []).
Proof. split; reflexivity. Qed.

(** X28. What [checkCapsulePermission] attaches when it lets a request
    through: for the owner the role "owner" and no capsule, for anybody else
    the role of a contributor entry of that user and the capsule; and with
    the requirement "owner" nobody but the owner passes. *)
Theorem permission_attachments required cap req_user role oc :
  (checkCapsulePermission required (Returned (Some cap)) req_user).1 =
  PermNext role oc →
  (owner cap = user_id req_user → role = role_owner ∧ oc = None)
  ∧ (owner cap ≠ user_id req_user →
     oc = Some cap
     ∧ ∃ k, k ∈ contributors cap ∧ c_user k = user_id req_user
            ∧ role = role_name (c_role k))
  ∧ (required = role_owner → owner cap = user_id req_user).
Proof.
  unfold checkCapsulePermission.
  destruct (decide (owner cap = user_id req_user)) as [Ho|Ho].
  - rewrite bool_decide_eq_true_2 by done. by intros [= <- <-].
  - rewrite bool_decide_eq_false_2 by done.
    destruct (List.find _ (contributors cap)) as [entry|] eqn:Hf; [|done].
    apply find_contributor_Some in Hf as [Hin Hu].
    destruct (Nat.ltb_spec (roleHierarchy (role_name (c_role entry)))
                (roleHierarchy required)) as [Hlt|Hge]; [done |].
    intros [= <- <-]. split; [done |]. split; [intros _; split; [done |];
      by exists entry |].
    intros ->. destruct (c_role entry); simpl in Hge; lia.
Qed.

Lemma permission_attachments_witness :
  ("A" = "A" → role_owner = role_owner ∧ @None Capsule = None)
  ∧ ("A" ≠ "A" →
     None = Some Scenario.C101
     ∧ ∃ k, k ∈ contributors Scenario.C101 ∧ c_user k = "A"
            ∧ role_owner = role_name (c_role k))
  ∧ (role_viewer = role_owner → "A" = "A").
Proof.
  apply (permission_attachments role_viewer Scenario.C101 Scenario.userA
           role_owner None).
  reflexivity.
Defined.

(** * The reaction route *)

Lemma find_reaction uid emoji (l : list Reaction) :
  (∃ r, List.find (is_reaction_of uid emoji) l = Some r)
  ↔ existsb (is_reaction_of uid emoji) l = true.
Proof.
  induction l as [|x l IH]; simpl.
  - split; [by intros [? ?] | done].
  - destruct (is_reaction_of uid emoji x); [|done].
    split; [done | by eexists].
Qed.

Lemma filter_others_none uid emoji (l : list Reaction) :
  existsb (is_reaction_of uid emoji)
    (List.filter (λ r, negb (is_reaction_of uid emoji r)) l) = false.
Proof.
  induction l as [|x l IH]; simpl; [done |].
  destruct (is_reaction_of uid emoji x) eqn:Hx; simpl; [done |].
  by rewrite Hx.
Qed.

Lemma filter_others_id uid emoji (l : list Reaction) :
  existsb (is_reaction_of uid emoji) l = false →
  List.filter (λ r, negb (is_reaction_of uid emoji r)) l = l.
Proof.
  induction l as [|x l IH]; simpl; [done |].
  intros [Hx Hl]%orb_false_iff. rewrite Hx. simpl. by rewrite IH.
Qed.

Lemma filter_twice {A} (f : A → bool) (l : list A) :
  List.filter f (List.filter f l) = List.filter f l.
Proof.
  induction l as [|x l IH]; simpl; [done |].
  destruct (f x) eqn:Hx; simpl; [|done]. by rewrite Hx, IH.
Qed.

Lemma is_reaction_of_own uid emoji :
  is_reaction_of uid emoji {| r_user := uid; r_emoji := emoji |} = true.
Proof.
  unfold is_reaction_of. simpl. by rewrite !bool_decide_eq_true_2.
Qed.

(** What the route writes when the memory is found and every store call
    succeeds. *)
Lemma react_saved
  (MemoryItem_findById : string → Outcome (option ReactedMemory))
  (memory_save memory_populate : ReactedMemory → Outcome unit)
  req_io req_user param_id emoji memory :
  emoji ≠ "" →
  MemoryItem_findById param_id = Returned (Some memory) →
  (∀ m, memory_save m = Returned ()) →
  (∀ m, memory_populate m = Returned ()) →
  (react MemoryItem_findById memory_save memory_populate
     req_io req_user param_id (Some emoji)).1.2 =
  Some {| rm_id := rm_id memory; rm_capsule := rm_capsule memory;
          reactions :=
            if existsb (is_reaction_of (user_id req_user) emoji)
                 (reactions memory)
            then List.filter
                   (λ r, negb (is_reaction_of (user_id req_user) emoji r))
                   (reactions memory)
            else reactions memory
                 ++ [{| r_user := user_id req_user; r_emoji := emoji |}] |}.
Proof.
  intros He Hm Hs Hp. unfold react. destruct emoji as [|ch emoji]; [done |].
  rewrite Hm, Hs, Hp. cbn [fst snd].
  destruct (List.find _ (reactions memory)) as [r|] eqn:Hf.
  - by rewrite (proj1 (find_reaction _ _ _) (ex_intro _ r Hf)).
  - destruct (existsb _ (reactions memory)) eqn:Hex; [|done].
    apply find_reaction in Hex as [r Hr]. congruence.
Qed.

(** X29. A reaction is a toggle on the pair of user and emoji.  When the
    store calls succeed, the saved document has a reaction of the user with
    the emoji exactly when the document found had none; the reactions of
    other users and with other emoji are kept, in order; and if the user had
    not reacted with the emoji, reacting again on the saved document writes
    the original list back. *)
Theorem react_toggles
  (MemoryItem_findById : string → Outcome (option ReactedMemory))
  (memory_save memory_populate : ReactedMemory → Outcome unit)
  req_io req_user param_id emoji memory :
  emoji ≠ "" →
  MemoryItem_findById param_id = Returned (Some memory) →
  (∀ m, memory_save m = Returned ()) →
  (∀ m, memory_populate m = Returned ()) →
  ∃ memory',
    (react MemoryItem_findById memory_save memory_populate
       req_io req_user param_id (Some emoji)).1.2 = Some memory'
    ∧ rm_id memory' = rm_id memory ∧ rm_capsule memory' = rm_capsule memory
    ∧ existsb (is_reaction_of (user_id req_user) emoji) (reactions memory') =
      negb (existsb (is_reaction_of (user_id req_user) emoji)
              (reactions memory))
    ∧ List.filter (λ r, negb (is_reaction_of (user_id req_user) emoji r))
        (reactions memory') =
      List.filter (λ r, negb (is_reaction_of (user_id req_user) emoji r))
        (reactions memory)
    ∧ (existsb (is_reaction_of (user_id req_user) emoji) (reactions memory)
       = false →
       (react (λ _, Returned (Some memory')) memory_save memory_populate
          req_io req_user param_id (Some emoji)).1.2 = Some memory).
Proof.
  intros He Hm Hs Hp. eexists. split; [by apply react_saved |].
  cbn [rm_id rm_capsule reactions]. split; [done | split; [done |]].
  destruct (existsb _ (reactions memory)) eqn:Hex.
  - split; [apply filter_others_none |]. split; [|done].
    apply filter_twice.
  - split; [|split].
    + rewrite existsb_app. simpl. rewrite is_reaction_of_own.
      by rewrite orb_true_r.
    + rewrite List.filter_app. simpl. rewrite is_reaction_of_own. simpl.
      by rewrite app_nil_r.
    + intros _. rewrite (react_saved _ _ _ _ _ _ _ _ He eq_refl Hs Hp).
      cbn [rm_id rm_capsule reactions].
      rewrite existsb_app. simpl. rewrite is_reaction_of_own, orb_true_r.
      rewrite List.filter_app. simpl. rewrite is_reaction_of_own. simpl.
      rewrite app_nil_r, filter_others_id by done. by destruct memory.
Qed.

(** B has reacted to a memory with a heart; A adds a heart, then takes it
    back. *)
Lemma react_toggles_witness :
  let memory := mkReacted "M1" "C101" [mkReaction "B" "heart"] in
  ∃ memory',
    (react (λ _, Returned (Some memory)) (λ _, Returned ())
       (λ _, Returned ()) (io Scenario.joined.1) Scenario.userA "M1"
       (Some "heart")).1.2 = Some memory'
    ∧ rm_id memory' = rm_id memory ∧ rm_capsule memory' = rm_capsule memory
    ∧ existsb (is_reaction_of "A" "heart") (reactions memory') =
      negb (existsb (is_reaction_of "A" "heart") (reactions memory))
    ∧ List.filter (λ r, negb (is_reaction_of "A" "heart" r))
        (reactions memory') =
      List.filter (λ r, negb (is_reaction_of "A" "heart" r))
        (reactions memory)
    ∧ (existsb (is_reaction_of "A" "heart") (reactions memory) = false →
       (react (λ _, Returned (Some memory')) (λ _, Returned ())
          (λ _, Returned ()) (io Scenario.joined.1) Scenario.userA "M1"
          (Some "heart")).1.2 = Some memory).
Proof.
  intros memory.
  apply (react_toggles (λ _, Returned (Some memory)) (λ _, Returned ())
           (λ _, Returned ()) (io Scenario.joined.1) Scenario.userA "M1"
           "heart" memory).
  - discriminate.
  - reflexivity.
  - intros m. reflexivity.
  - intros m. reflexivity.
Defined.

(** X30. The reaction route emits only after the document was saved and
    its users filled in: every event it emits comes with the 200 response
    and a saved document, and goes to a connection in the room of the
    memory's capsule.  When filling in the users throws after the save, the
    change is saved, the answer is 500 and no connection is told. *)
Theorem react_broadcast_follows_save
  (MemoryItem_findById : string → Outcome (option ReactedMemory))
  (memory_save memory_populate : ReactedMemory → Outcome unit)
  req_io req_user param_id emoji :
  let r := react MemoryItem_findById memory_save memory_populate
             req_io req_user param_id emoji in
  (∀ t ev, ReactionEmit t ev ∈ r.2 →
     rr_status r.1.1 = 200
     ∧ ∃ memory',
         r.1.2 = Some memory'
         ∧ memory_save memory' = Returned ()
         ∧ memory_populate memory' = Returned ()
         ∧ t ∈ SocketIO.members (roomName (rm_capsule memory')) req_io)
  ∧ (∀ memory',
       r.1.2 = Some memory' → memory_populate memory' = Threw →
       rr_status r.1.1 = 500 ∧ ∀ t ev, ReactionEmit t ev ∉ r.2).
Proof.
  intros r. subst r. unfold react, failed_to_react.
  assert (Hlog : ∀ t ev l, ReactionEmit t ev ∉ [ReactionLog l]).
  { intros t ev l Hin. apply list_elem_of_singleton in Hin. discriminate. }
  assert (Hnil : ∀ t ev, ReactionEmit t ev ∉ @nil ReactionOutput).
  { intros t ev Hin. by apply elem_of_nil in Hin. }
  destruct emoji as [[|ch emoji]|];
    [split; [by intros t ev ?%Hnil | done] | |
     split; [by intros t ev ?%Hnil | done]].
  destruct (MemoryItem_findById param_id) as [|[memory|]];
    [split; [by intros t ev ?%Hlog | done] | |
     split; [by intros t ev ?%Hnil | done]].
  cbv zeta.
  set (memory' := {| rm_id := rm_id memory; rm_capsule := rm_capsule memory;
                     reactions := _ |}).
  destruct (memory_save memory') as [|[]] eqn:Hs;
    [split; [by intros t ev ?%Hlog | done] |].
  destruct (memory_populate memory') as [|[]] eqn:Hp.
  - split; [by intros t ev ?%Hlog |].
    intros m' [= <-] _. split; [done |]. intros t ev. apply Hlog.
  - cbn [fst snd rr_status]. split.
    + intros t ev Hin. split; [done |]. exists memory'.
      split; [done | split; [done | split; [done |]]].
      apply list_elem_of_fmap in Hin as (t' & Heq & Hin).
      injection Heq as -> _. by apply elem_of_elements in Hin.
    + intros m' [= <-] Hthrew. congruence.
Qed.
